(** * rtapi: real-time API latency analyzer

    A shallow embedding of [rtapi.go] and the properties of its
    configuration resolver, run orchestration, report forwarding and
    percentile-graph transform.

    Conventions.  Go's [uint64], [int] and [time.Duration] are [Z];
    a finite [float64] is the rational it denotes, and an operation on
    [float64] rounds its exact result to the nearest one; strings are
    byte strings.  The command [main] and the functions it calls run in the
    monad [M], which threads the chronological trace of observable
    events and stops at the first [log.Fatal] or [panic].  Functions of
    imported packages (the JSON and YAML syntax, [time.ParseDuration],
    the load engine, the HTTP client, the file system) are fields of the
    record [World]. *)

From Stdlib Require Import ZArith QArith Qround String Ascii List Lia Bool DecimalString.
From Stdlib Require Qcanon.
From stdpp Require Import base option list strings gmap.
Import ListNotations.
Local Open Scope Z_scope.

(** ** Engine results *)

Module vegeta.

(** [vegeta.LatencyMetrics]: durations in nanoseconds. *)
Record LatencyMetrics := {
  Total : Z; Mean : Z; P50 : Z; P90 : Z; P95 : Z; P99 : Z; Max : Z; Min : Z
}.

(** [vegeta.Metrics], its integer-valued fields.  The program never
    reads inside a [Metrics] except for [Latencies.P99]; the remaining
    fields of the library's struct travel with it unread. *)
Record Metrics := {
  Latencies : LatencyMetrics;
  BytesIn : Z;
  BytesOut : Z;
  Duration : Z;
  Wait : Z;
  Requests : Z
}.

(** The zero value of the struct. *)
Definition zero : Metrics :=
  {| Latencies := {| Total := 0; Mean := 0; P50 := 0; P90 := 0; P95 := 0;
                     P99 := 0; Max := 0; Min := 0 |};
     BytesIn := 0; BytesOut := 0; Duration := 0; Wait := 0; Requests := 0 |}.

End vegeta.

(** ** The program's records (lines 28-60) *)

Record endpointTarget := {
  Method : string;
  URL : string;
  Body : string;
  Header : gmap string (list string)
}.

Record endpointQuery := {
  Threads : Z;        (* uint64 *)
  MaxThreads : Z;     (* uint64 *)
  Connections : Z;    (* int *)
  Duration : string;
  RequestRate : Z     (* int *)
}.

Record endpointDetails := {
  Target : endpointTarget;
  Query : endpointQuery;
  Metrics : vegeta.Metrics
}.

Record splunkSettings := {
  Url : string;
  Authkey : string;
  Source : string
}.

Record splunkEvent := {
  Time : Z;
  Host : string;
  EventSource : string;
  Event : endpointDetails
}.

(** Zero values, as [var x T] gives them. *)
Definition zeroTarget : endpointTarget :=
  {| Method := ""; URL := ""; Body := ""; Header := ∅ |}.
Definition zeroSettings : splunkSettings :=
  {| Url := ""; Authkey := ""; Source := "" |}.

(** Field assignments. *)
Definition setMethod (v : string) (t : endpointTarget) : endpointTarget :=
  {| Method := v; URL := URL t; Body := Body t; Header := Header t |}.
Definition setURL (v : string) (t : endpointTarget) : endpointTarget :=
  {| Method := Method t; URL := v; Body := Body t; Header := Header t |}.
Definition setBody (v : string) (t : endpointTarget) : endpointTarget :=
  {| Method := Method t; URL := URL t; Body := v; Header := Header t |}.
Definition setHeader (v : gmap string (list string)) (t : endpointTarget) : endpointTarget :=
  {| Method := Method t; URL := URL t; Body := Body t; Header := v |}.

Definition setThreads (v : Z) (q : endpointQuery) : endpointQuery :=
  {| Threads := v; MaxThreads := MaxThreads q; Connections := Connections q;
     Duration := Duration q; RequestRate := RequestRate q |}.
Definition setMaxThreads (v : Z) (q : endpointQuery) : endpointQuery :=
  {| Threads := Threads q; MaxThreads := v; Connections := Connections q;
     Duration := Duration q; RequestRate := RequestRate q |}.
Definition setConnections (v : Z) (q : endpointQuery) : endpointQuery :=
  {| Threads := Threads q; MaxThreads := MaxThreads q; Connections := v;
     Duration := Duration q; RequestRate := RequestRate q |}.
Definition setDuration (v : string) (q : endpointQuery) : endpointQuery :=
  {| Threads := Threads q; MaxThreads := MaxThreads q; Connections := Connections q;
     Duration := v; RequestRate := RequestRate q |}.
Definition setRequestRate (v : Z) (q : endpointQuery) : endpointQuery :=
  {| Threads := Threads q; MaxThreads := MaxThreads q; Connections := Connections q;
     Duration := Duration q; RequestRate := v |}.

Definition setTarget (v : endpointTarget) (d : endpointDetails) : endpointDetails :=
  {| Target := v; Query := Query d; Metrics := Metrics d |}.
Definition setQuery (v : endpointQuery) (d : endpointDetails) : endpointDetails :=
  {| Target := Target d; Query := v; Metrics := Metrics d |}.
Definition setMetrics (v : vegeta.Metrics) (d : endpointDetails) : endpointDetails :=
  {| Target := Target d; Query := Query d; Metrics := v |}.

Definition setUrl (v : string) (s : splunkSettings) : splunkSettings :=
  {| Url := v; Authkey := Authkey s; Source := Source s |}.
Definition setAuthkey (v : string) (s : splunkSettings) : splunkSettings :=
  {| Url := Url s; Authkey := v; Source := Source s |}.
Definition setSource (v : string) (s : splunkSettings) : splunkSettings :=
  {| Url := Url s; Authkey := Authkey s; Source := v |}.

(** ** Numbers

    The integer types are 64 bits wide. *)

Definition uint64_max : Z := 2 ^ 64 - 1.
Definition int_min : Z := - 2 ^ 63.
Definition int_max : Z := 2 ^ 63 - 1.

(** [float64(i)]: exact below 2^53, and rounded to 53 significant bits,
    ties to even, from there on. *)
Definition float64_of_int (i : Z) : Z :=
  let a := Z.abs i in
  if a <? 2 ^ 53 then i
  else
    let e := Z.log2 a - 52 in
    let q := a / 2 ^ e in
    let r := a mod 2 ^ e in
    let half := 2 ^ (e - 1) in
    let q' := if r <? half then q
              else if half <? r then q + 1
              else if Z.even q then q else q + 1 in
    Z.sgn i * (q' * 2 ^ e).

(** The quotient of two naturals rounded to the nearest integer, ties
    to even. *)
Definition round_even (n d : Z) : Z :=
  let q := n / d in
  let r := n mod d in
  if 2 * r <? d then q
  else if d <? 2 * r then q + 1
  else if Z.even q then q else q + 1.

(** The [float64] nearest to a real, ties to even: the result is
    [m * 2^e] with [m] of 53 bits.  The exponent range is left out; the
    numbers of this program (durations in seconds and their sums,
    configuration values) are far from its ends. *)
Definition float64_of_Q (x : Q) : Q :=
  let n := Z.abs (Qnum (Qred x)) in
  let d := Z.pos (Qden (Qred x)) in
  if n =? 0 then 0%Q
  else
    let e0 := Z.log2 n - Z.log2 d - 52 in
    let e := if n * 2 ^ Z.max 0 (- e0) <? 2 ^ 52 * (d * 2 ^ Z.max 0 e0)
             then e0 - 1 else e0 in
    let m := round_even (n * 2 ^ Z.max 0 (- e)) (d * 2 ^ Z.max 0 e) in
    Qred (Z.sgn (Qnum (Qred x)) * m * 2 ^ Z.max 0 e # Z.to_pos (2 ^ Z.max 0 (- e))).

Definition float64_add (x y : Q) : Q := float64_of_Q (x + y).
Definition float64_div (x y : Q) : Q := float64_of_Q (x / y).

(** The integer part of a [float64], the fraction discarded. *)
Definition truncate (x : Q) : Z := Z.quot (Qnum x) (Z.pos (Qden x)).

(** [int(x)] and [int64(x)].  Go leaves the result open when the
    integer part does not fit; it is given here as the amd64 compiler
    produces it, the least [int]. *)
Definition int_of_float64 (x : Q) : Z :=
  let t := truncate x in
  if (int_min <=? t) && (t <=? int_max) then t else int_min.

(** [uint64(x)], likewise: below 2^63 the bits of [int64(x)], and from
    there on those of [int64(x - 2^63)] with the top bit set. *)
Definition uint64_of_float64 (x : Q) : Z :=
  if Qle_bool (inject_Z (2 ^ 63)) x
  then Z.lor (int_of_float64 (float64_of_Q (x - inject_Z (2 ^ 63))) mod 2 ^ 64) (2 ^ 63)
  else int_of_float64 x mod 2 ^ 64.

(** ** Decoding structured input

    Both encodings are read into the same tree.  A scalar keeps its
    source text, which the YAML decoder stores when the field is a
    string.  [Int z src] is a number written without fraction or
    exponent; [Float q src] is any other number, [q] being the
    [float64] nearest to what is written. *)

#[warnings="-register-all"]
Inductive node :=
| Null
| Bool (b : bool) (src : string)
| Int (z : Z) (src : string)
| Float (q : Q) (src : string)
| Str (s : string)
| Seq (items : list node)
| Map (members : list (string * node)).

Definition is_null (n : node) : bool :=
  match n with Null => true | _ => false end.

(** What distinguishes [encoding/json] from [yaml.v3] when a tree is
    stored into a struct. *)
Record Decoder := {
  (** does the input key name the field with this tag *)
  key_eq : string -> string -> bool;
  (** a key given twice in one mapping, or a struct field set twice,
      is an error (yaml.v3's [uniqueKeys]) *)
  unique_keys : bool;
  as_uint64 : node -> option Z;
  as_int : node -> option Z;
  as_string : node -> option string;
  (** the engine's own [Metrics] decoding *)
  as_metrics : node -> vegeta.Metrics -> option vegeta.Metrics;
  (** a null element of the top-level list: decoded like any element
      (JSON) or dropped (YAML) *)
  null_item_dropped : bool
}.

(** [bytes.EqualFold] against a tag of ASCII letters: letters match
    without regard to case, and so do the two other characters that
    fold to an ASCII letter, the long s (U+017F) and the Kelvin sign
    (U+212A), here in UTF-8. *)
Definition lower (c : ascii) : ascii :=
  let n := nat_of_ascii c in
  if (65 <=? n)%nat && (n <=? 90)%nat then ascii_of_nat (n + 32) else c.

Fixpoint lower_string (s : string) : string :=
  match s with
  | EmptyString => EmptyString
  | String c r =>
      match r with
      | String c1 r1 =>
          if Ascii.eqb c "197" && Ascii.eqb c1 "191" then String "s" (lower_string r1)
          else
            match r1 with
            | String c2 r2 =>
                if Ascii.eqb c "226" && Ascii.eqb c1 "132" && Ascii.eqb c2 "170"
                then String "k" (lower_string r2)
                else String (lower c) (lower_string r)
            | EmptyString => String (lower c) (lower_string r)
            end
      | EmptyString => String (lower c) EmptyString
      end
  end.

Definition EqualFold (s t : string) : bool :=
  String.eqb (lower_string s) (lower_string t).

(** [encoding/json]: keys match field tags without regard to case, a
    repeated key is stored again, a number is stored into an integer
    field when its literal parses in the field's type (so not with a
    fraction or an exponent), only a string into a string field. *)
Definition json (metrics : node -> vegeta.Metrics -> option vegeta.Metrics) : Decoder :=
  {| key_eq := EqualFold;
     unique_keys := false;
     as_uint64 := fun n =>
       match n with
       | Int z src =>
           if (0 <=? z) && (z <=? uint64_max) && negb (String.prefix "-" src)
           then Some z else None
       | _ => None
       end;
     as_int := fun n =>
       match n with
       | Int z _ => if (int_min <=? z) && (z <=? int_max) then Some z else None
       | _ => None
       end;
     as_string := fun n => match n with Str s => Some s | _ => None end;
     as_metrics := metrics;
     null_item_dropped := false |}.

(** A decimal integer literal of YAML: an optional sign and digits,
    which [_] may separate. *)
Definition is_digit (c : ascii) : bool :=
  let n := nat_of_ascii c in (48 <=? n)%nat && (n <=? 57)%nat.

Fixpoint digits (s : string) : bool :=
  match s with
  | EmptyString => true
  | String c r => (is_digit c || Ascii.eqb c "_") && digits r
  end.

Definition decimal (src : string) : bool :=
  match src with
  | EmptyString => false
  | String c r =>
      if Ascii.eqb c "-" || Ascii.eqb c "+"
      then negb (String.eqb r "") && digits r
      else digits src
  end.

(** What yaml.v3 resolves a number to: an integer when it fits 64
    bits, and a [float64] otherwise (an integer of more digits only
    when it is written in decimal). *)
Inductive number := AnInt (z : Z) | AFloat (q : Q).

Definition yaml_number (n : node) : option number :=
  match n with
  | Int z src =>
      if (int_min <=? z) && (z <=? uint64_max) then Some (AnInt z)
      else if decimal src then Some (AFloat (inject_Z (float64_of_int z)))
      else None
  | Float q _ => Some (AFloat q)
  | _ => None
  end.

(** [yaml.v3]: keys match tags exactly, a key given twice is an error,
    an integer is stored into an integer field when it fits, a float
    when it is at most the [float64] of the field's largest value, by
    conversion to the field's type, and any scalar is stored into a
    string field as its source text. *)
Definition yaml (metrics : node -> vegeta.Metrics -> option vegeta.Metrics) : Decoder :=
  {| key_eq := String.eqb;
     unique_keys := true;
     as_uint64 := fun n =>
       match yaml_number n with
       | Some (AnInt z) => if 0 <=? z then Some z else None
       | Some (AFloat q) =>
           if Qle_bool q (inject_Z (float64_of_int uint64_max))
           then Some (uint64_of_float64 q) else None
       | None => None
       end;
     as_int := fun n =>
       match yaml_number n with
       | Some (AnInt z) => if z <=? int_max then Some z else None
       | Some (AFloat q) =>
           if Qle_bool q (inject_Z (float64_of_int int_max))
           then Some (int_of_float64 q) else None
       | None => None
       end;
     as_string := fun n =>
       match n with
       | Str s => Some s
       | Int _ src | Float _ src | Bool _ src => Some src
       | _ => None
       end;
     as_metrics := metrics;
     null_item_dropped := true |}.

(** *** Storing a mapping

    A mapping in which a key occurs twice. *)
Fixpoint repeated_key (ms : list (string * node)) : bool :=
  match ms with
  | [] => false
  | kv :: rest =>
      existsb (fun kv' => String.eqb (fst kv) (fst kv')) rest || repeated_key rest
  end.

(** The members are visited in input order.  A key that names no field
    is ignored; a key that names a field stores its value there. *)
Section Struct.
Context {T F : Type} (D : Decoder).
Context (fields : list F) (tag : F -> string) (F_eqb : F -> F -> bool).
Context (put : F -> node -> T -> option T).

Definition field_of_key (k : string) : option F :=
  List.find (fun f => key_eq D (tag f) k) fields.

Definition store_member (acc : T * list F) (kv : string * node) : option (T * list F) :=
  match field_of_key (fst kv) with
  | None => Some acc
  | Some f =>
      if unique_keys D && existsb (F_eqb f) (snd acc) then None
      else s' ← put f (snd kv) (fst acc); Some (s', f :: snd acc)
  end.

Fixpoint store_members (ms : list (string * node)) (acc : T * list F) : option (T * list F) :=
  match ms with
  | [] => Some acc
  | kv :: rest => acc' ← store_member acc kv; store_members rest acc'
  end.

(** A struct is stored from a mapping, which is first checked for
    repeated keys when they are to be unique; null leaves the struct as
    it is. *)
Definition store_struct (n : node) (s : T) : option T :=
  match n with
  | Null => Some s
  | Map ms =>
      if unique_keys D && repeated_key ms then None
      else fst <$> store_members ms (s, [])
  | _ => None
  end.

(** The value the input gives field [f]: that of the last member whose
    key names [f] and whose value is not null. *)
Fixpoint supplied (f : F) (ms : list (string * node)) : option node :=
  match ms with
  | [] => None
  | kv :: rest =>
      match supplied f rest with
      | Some v => Some v
      | None =>
          match field_of_key (fst kv) with
          | Some f' => if F_eqb f' f && negb (is_null (snd kv)) then Some (snd kv) else None
          | None => None
          end
      end
  end.
End Struct.

(** A scalar field: null has no effect. *)
Definition store {A} (conv : node -> option A) (n : node) (old : A) : option A :=
  match n with Null => Some old | _ => conv n end.

(** *** [endpointQuery] *)

Inductive queryField := FThreads | FMaxThreads | FConnections | FDuration | FRequestRate.

Definition queryFields : list queryField :=
  [FThreads; FMaxThreads; FConnections; FDuration; FRequestRate].

Definition queryTag (f : queryField) : string :=
  match f with
  | FThreads => "threads"
  | FMaxThreads => "max_threads"
  | FConnections => "connections"
  | FDuration => "duration"
  | FRequestRate => "request_rate"
  end.

Definition queryField_eqb (a b : queryField) : bool :=
  match a, b with
  | FThreads, FThreads | FMaxThreads, FMaxThreads | FConnections, FConnections
  | FDuration, FDuration | FRequestRate, FRequestRate => true
  | _, _ => false
  end.

Definition setQueryField (D : Decoder) (f : queryField) (n : node) (q : endpointQuery)
  : option endpointQuery :=
  match f with
  | FThreads => v ← store (as_uint64 D) n (Threads q); Some (setThreads v q)
  | FMaxThreads => v ← store (as_uint64 D) n (MaxThreads q); Some (setMaxThreads v q)
  | FConnections => v ← store (as_int D) n (Connections q); Some (setConnections v q)
  | FDuration => v ← store (as_string D) n (Duration q); Some (setDuration v q)
  | FRequestRate => v ← store (as_int D) n (RequestRate q); Some (setRequestRate v q)
  end.

Definition storeQuery (D : Decoder) : node -> endpointQuery -> option endpointQuery :=
  store_struct D queryFields queryTag queryField_eqb (setQueryField D).

(** *** [endpointTarget] *)

Inductive targetField := FMethod | FURL | FBody | FHeader.

Definition targetFields : list targetField := [FMethod; FURL; FBody; FHeader].

Definition targetTag (f : targetField) : string :=
  match f with
  | FMethod => "method" | FURL => "url" | FBody => "body" | FHeader => "header"
  end.

Definition targetField_eqb (a b : targetField) : bool :=
  match a, b with
  | FMethod, FMethod | FURL, FURL | FBody, FBody | FHeader, FHeader => true
  | _, _ => false
  end.

(** A [[]string]: a sequence of strings, a null element being the empty
    string; null is the nil slice. *)
Definition as_strings (D : Decoder) (n : node) : option (list string) :=
  match n with
  | Null => Some []
  | Seq items => mapM (fun i => store (as_string D) i "") items
  | _ => None
  end.

(** [http.Header], a map from names to value lists: every member of the
    mapping, checked for repeated keys like any mapping, is inserted;
    null resets the map to nil. *)
Fixpoint insertHeaders (D : Decoder) (ms : list (string * node)) (h : gmap string (list string))
  : option (gmap string (list string)) :=
  match ms with
  | [] => Some h
  | kv :: rest => vs ← as_strings D (snd kv); insertHeaders D rest (<[fst kv := vs]> h)
  end.

Definition storeHeader (D : Decoder) (n : node) (h : gmap string (list string))
  : option (gmap string (list string)) :=
  match n with
  | Null => Some ∅
  | Map ms => if unique_keys D && repeated_key ms then None else insertHeaders D ms h
  | _ => None
  end.

Definition setTargetField (D : Decoder) (f : targetField) (n : node) (t : endpointTarget)
  : option endpointTarget :=
  match f with
  | FMethod => v ← store (as_string D) n (Method t); Some (setMethod v t)
  | FURL => v ← store (as_string D) n (URL t); Some (setURL v t)
  | FBody => v ← store (as_string D) n (Body t); Some (setBody v t)
  | FHeader => v ← storeHeader D n (Header t); Some (setHeader v t)
  end.

Definition storeTarget (D : Decoder) : node -> endpointTarget -> option endpointTarget :=
  store_struct D targetFields targetTag targetField_eqb (setTargetField D).

(** *** [endpointDetails] *)

Inductive detailsField := FTarget | FQuery | FMetrics.

Definition detailsFields : list detailsField := [FTarget; FQuery; FMetrics].

Definition detailsTag (f : detailsField) : string :=
  match f with
  | FTarget => "target" | FQuery => "query_parameters" | FMetrics => "metrics"
  end.

Definition detailsField_eqb (a b : detailsField) : bool :=
  match a, b with
  | FTarget, FTarget | FQuery, FQuery | FMetrics, FMetrics => true
  | _, _ => false
  end.

Definition setDetailsField (D : Decoder) (f : detailsField) (n : node) (d : endpointDetails)
  : option endpointDetails :=
  match f with
  | FTarget => v ← storeTarget D n (Target d); Some (setTarget v d)
  | FQuery => v ← storeQuery D n (Query d); Some (setQuery v d)
  | FMetrics => v ← store (fun n => as_metrics D n (Metrics d)) n (Metrics d); Some (setMetrics v d)
  end.

(** [json.Unmarshal(b, temp)] and [node.Decode(temp)] with [temp] a
    pointer to the struct. *)
Definition storeDetails (D : Decoder) : node -> endpointDetails -> option endpointDetails :=
  store_struct D detailsFields detailsTag detailsField_eqb (setDetailsField D).

(** Lines 267-283. *)
Definition UnmarshalJSON (metrics : node -> vegeta.Metrics -> option vegeta.Metrics) (b : node)
  : option endpointDetails :=
  let temp :=
    {| Target := zeroTarget;
       Query := {| Threads := 2; MaxThreads := 2; Connections := 10;
                   Duration := "10s"; RequestRate := 500 |};
       Metrics := vegeta.zero |} in
  storeDetails (json metrics) b temp.

(** Lines 287-303. *)
Definition UnmarshalYAML (metrics : node -> vegeta.Metrics -> option vegeta.Metrics) (n : node)
  : option endpointDetails :=
  let temp :=
    {| Target := zeroTarget;
       Query := {| Threads := 2; MaxThreads := 2; Connections := 10;
                   Duration := "10s"; RequestRate := 500 |};
       Metrics := vegeta.zero |} in
  storeDetails (yaml metrics) n temp.

(** The members of every [query_parameters] mapping of a record, in
    input order. *)
Definition query_members (D : Decoder) (rec : list (string * node)) : list (string * node) :=
  flat_map (fun kv =>
    match field_of_key D detailsFields detailsTag (fst kv), snd kv with
    | Some FQuery, Map ms => ms
    | _, _ => []
    end) rec.

(** What a record gives a query field. *)
Definition given (D : Decoder) (f : queryField) (rec : list (string * node)) : option node :=
  supplied D queryFields queryTag queryField_eqb f (query_members D rec).

(** The resolved field is the default when the record omits the field,
    and the decoder's reading of the given value otherwise. *)
Definition resolved {A} (conv : node -> option A) (dflt : A) (input : option node) (got : A) : Prop :=
  match input with
  | None => got = dflt
  | Some v => conv v = Some got
  end.

(** [json.Unmarshal] and [yaml.Unmarshal] into [[]endpointDetails]: a
    sequence, each element through the type's own unmarshal function;
    null is the nil slice. *)
Definition storeList (D : Decoder) (item : node -> option endpointDetails) (n : node)
  : option (list endpointDetails) :=
  match n with
  | Null => Some []
  | Seq items =>
      mapM item (if null_item_dropped D
                 then List.filter (fun i => negb (is_null i)) items else items)
  | _ => None
  end.

(** *** [splunkSettings] *)

Inductive settingsField := FUrl | FAuthkey | FSource.

Definition settingsFields : list settingsField := [FUrl; FAuthkey; FSource].

Definition settingsTag (f : settingsField) : string :=
  match f with FUrl => "url" | FAuthkey => "authkey" | FSource => "source" end.

Definition settingsField_eqb (a b : settingsField) : bool :=
  match a, b with
  | FUrl, FUrl | FAuthkey, FAuthkey | FSource, FSource => true
  | _, _ => false
  end.

Definition setSettingsField (D : Decoder) (f : settingsField) (n : node) (s : splunkSettings)
  : option splunkSettings :=
  match f with
  | FUrl => v ← store (as_string D) n (Url s); Some (setUrl v s)
  | FAuthkey => v ← store (as_string D) n (Authkey s); Some (setAuthkey v s)
  | FSource => v ← store (as_string D) n (Source s); Some (setSource v s)
  end.

Definition storeSettings (D : Decoder) : node -> splunkSettings -> option splunkSettings :=
  store_struct D settingsFields settingsTag settingsField_eqb (setSettingsField D).

(** ** Strings *)

(** [filepath.Ext]: the suffix from the last dot of the last path
    element, empty when it has none. *)
Fixpoint ext_scan (rev_path : list ascii) (suffix : string) : string :=
  match rev_path with
  | [] => ""
  | c :: r =>
      if Ascii.eqb c "/" then ""
      else if Ascii.eqb c "." then String c suffix
      else ext_scan r (String c suffix)
  end.

Definition Ext (path : string) : string :=
  ext_scan (rev (list_ascii_of_string path)) "".

(** [strings.Split(s, sep)] for a one-byte separator. *)
Fixpoint Split (s : string) (sep : ascii) : list string :=
  match s with
  | EmptyString => [""]
  | String c r =>
      if Ascii.eqb c sep then "" :: Split r sep
      else match Split r sep with
           | [] => [String c ""]
           | h :: t => String c h :: t
           end
  end.

(** [strings.Fields]: the maximal runs of characters that are not
    white space.  White space is the six ASCII characters and, in
    UTF-8, U+0085, U+00A0, U+1680, U+2000 to U+200A, U+2028, U+2029,
    U+202F, U+205F and U+3000; as nothing of white space is in a field,
    each of the latter is first put as a blank. *)
Definition isSpace (c : ascii) : bool :=
  let n := nat_of_ascii c in
  ((9 <=? n)%nat && (n <=? 13)%nat) || (n =? 32)%nat.

Definition space2 (a b : ascii) : bool :=
  let y := nat_of_ascii b in
  (nat_of_ascii a =? 194)%nat && ((y =? 133)%nat || (y =? 160)%nat).

Definition space3 (a b c : ascii) : bool :=
  let x := nat_of_ascii a in
  let y := nat_of_ascii b in
  let z := nat_of_ascii c in
  (x =? 225)%nat && (y =? 154)%nat && (z =? 128)%nat
  || (x =? 226)%nat && (y =? 128)%nat
     && ((128 <=? z)%nat && (z <=? 138)%nat
         || (z =? 168)%nat || (z =? 169)%nat || (z =? 175)%nat)
  || (x =? 226)%nat && (y =? 129)%nat && (z =? 159)%nat
  || (x =? 227)%nat && (y =? 128)%nat && (z =? 128)%nat.

Fixpoint blanks (s : string) : string :=
  match s with
  | EmptyString => EmptyString
  | String a r =>
      match r with
      | String b r1 =>
          if space2 a b then String " " (blanks r1)
          else
            match r1 with
            | String c r2 =>
                if space3 a b c then String " " (blanks r2) else String a (blanks r)
            | EmptyString => String a (blanks r)
            end
      | EmptyString => String a EmptyString
      end
  end.

Fixpoint fields_scan (s : string) : string * list string :=
  match s with
  | EmptyString => ("", [])
  | String c r =>
      let (w, fs) := fields_scan r in
      if isSpace c
      then ("", match w with EmptyString => fs | _ => w :: fs end)
      else (String c w, fs)
  end.

Definition Fields (s : string) : list string :=
  let (w, fs) := fields_scan (blanks s) in
  match w with EmptyString => fs | _ => w :: fs end.

(** [strconv.Itoa]. *)
Definition Itoa (i : Z) : string := NilZero.string_of_int (Z.to_int i).

(** ** Observable behaviour *)

Record request := {
  RequestURL : string;
  Authorization : string;
  ContentType : string;
  Payload : splunkEvent
}.

(** What [client.Do] hands back: the status line and the body as
    [ioutil.ReadAll] reads it, with whether reading failed. *)
Record response := {
  StatusCode : Z;
  ResponseBody : string;
  ReadFailed : bool
}.

Inductive event :=
| EvOpen (file : string)
| EvProgress (sum : Z)
| EvAttack (target : endpointTarget) (query : endpointQuery) (duration : Z)
| EvPost (req : request)
| EvLog (line : string)
| EvText (endpoints : list endpointDetails)
| EvPDF (endpoints : list endpointDetails) (output : string)
| EvJSON (endpoints : list endpointDetails).

(** The events that touch the network: a load run and a forwarded
    event. *)
Definition is_network (e : event) : bool :=
  match e with EvAttack _ _ _ | EvPost _ => true | _ => false end.

Definition no_network (t : list event) : Prop :=
  forallb (fun e => negb (is_network e)) t = true.

(** How a computation ends: normally, in [log.Fatal] (exit status 1),
    or in an uncaught [panic]. *)
Inductive result (A : Type) :=
| Done (a : A)
| Fatal
| Panic.
Arguments Done {A} a.
Arguments Fatal {A}.
Arguments Panic {A}.

Definition is_fatal {A} (r : result A) : bool :=
  match r with Done _ => false | _ => true end.

Definition M (A : Type) : Type := list event -> result A * list event.

#[global] Instance M_ret : MRet M := fun A a t => (Done a, t).
#[global] Instance M_bind : MBind M := fun A B f m t =>
  match m t with
  | (Done a, t') => f a t'
  | (Fatal, t') => (Fatal, t')
  | (Panic, t') => (Panic, t')
  end.

Definition emit (e : event) : M unit := fun t => (Done tt, t ++ [e]).
Definition fatal {A} : M A := fun t => (Fatal, t).
Definition panic {A} : M A := fun t => (Panic, t).
Definition lift {A} (r : result A) : M A := fun t => (r, t).

(** ** The world outside the program *)

Record XY := { X : Q; Y : Q }.

Record World := {
  (** [os.Open] then [ioutil.ReadAll]: no such file, a failed read, or
      the contents *)
  ReadFile : string -> option (option string);
  json_syntax : string -> option node;
  yaml_syntax : string -> option node;
  json_metrics : node -> vegeta.Metrics -> option vegeta.Metrics;
  yaml_metrics : node -> vegeta.Metrics -> option vegeta.Metrics;
  ParseDuration : string -> option Z;
  ParseFloat : string -> option Q;
  (** the load engine: the folded metrics of one run, given all that
      happened before it *)
  Attack : list event -> endpointTarget -> endpointQuery -> Z -> vegeta.Metrics;
  Hostname : option string;
  Now : list event -> Z;
  (** [http.NewRequest] accepts the URL *)
  NewRequest : string -> bool;
  (** [client.Do]: a transport failure or the sink's response *)
  Do : list event -> request -> option response;
  (** the header line and the row lines of the HDR histogram plot *)
  HDRHeader : vegeta.Metrics -> string;
  HDRRows : vegeta.Metrics -> list string;
  (** the packed font and logo files are found *)
  BoxFind : string -> bool;
  (** plot and page rendering goes through, the scale of the X axis
      apart *)
  Render : list (list XY) -> list endpointDetails -> bool;
  OutputFileAndClose : string -> bool
}.

(** ** Command line (urfave/cli) *)

Module cli.
Record Context := {
  file : option string;
  data : option string;
  output : option string;
  print : option bool;
  json : option bool;
  splunk : option string;
  quiet : option bool
}.

Definition IsSet {A} (flag : option A) : bool :=
  match flag with Some _ => true | None => false end.
Definition String (flag : option string) : string := default "" flag.
Definition Bool (flag : option bool) : bool := default false flag.
End cli.

(** ** Reading the configuration (lines 178-263) *)

(** [json.Unmarshal(bytes, &temp)] with [temp] a [[]endpointDetails]. *)
Definition unmarshalEndpointsJSON (W : World) (bytes : string) : option (list endpointDetails) :=
  n ← json_syntax W bytes;
  storeList (json (json_metrics W)) (UnmarshalJSON (json_metrics W)) n.

Definition unmarshalEndpointsYAML (W : World) (bytes : string) : option (list endpointDetails) :=
  n ← yaml_syntax W bytes;
  storeList (yaml (yaml_metrics W)) (UnmarshalYAML (yaml_metrics W)) n.

Definition unmarshalSettingsJSON (W : World) (bytes : string) : option splunkSettings :=
  n ← json_syntax W bytes; storeSettings (json (json_metrics W)) n zeroSettings.

Definition unmarshalSettingsYAML (W : World) (bytes : string) : option splunkSettings :=
  n ← yaml_syntax W bytes; storeSettings (yaml (yaml_metrics W)) n zeroSettings.

(** The shape shared by the four file readers: [log.Fatal] when the
    file does not open, [panic] when reading or decoding fails. *)
Definition readAndDecode {A} (W : World) (decode : string -> option A) (file : string) : M A :=
  emit (EvOpen file);;
  match ReadFile W file with
  | None => fatal
  | Some None => panic
  | Some (Some byteValue) =>
      match decode byteValue with
      | None => panic
      | Some temp => mret temp
      end
  end.

Definition parseEndpointsJSON (W : World) (file : string) : M (list endpointDetails) :=
  readAndDecode W (unmarshalEndpointsJSON W) file.

Definition parseEndpointsYAML (W : World) (file : string) : M (list endpointDetails) :=
  readAndDecode W (unmarshalEndpointsYAML W) file.

Definition parseSplunkSettingsJSON (W : World) (file : string) : M splunkSettings :=
  readAndDecode W (unmarshalSettingsJSON W) file.

Definition parseSplunkSettingsYAML (W : World) (file : string) : M splunkSettings :=
  readAndDecode W (unmarshalSettingsYAML W) file.

Definition parseJSONString (W : World) (value : string) : M (list endpointDetails) :=
  match unmarshalEndpointsJSON W value with
  | None => panic
  | Some temp => mret temp
  end.

(** ** One load run (lines 305-333) *)

Definition queryAPI (W : World) (endpoint : endpointDetails) : M vegeta.Metrics :=
  match ParseDuration W (Duration (Query endpoint)) with
  | None => fatal
  | Some duration =>
      fun t =>
        (Done (Attack W t (Target endpoint) (Query endpoint) duration),
         t ++ [EvAttack (Target endpoint) (Query endpoint) duration])
  end.

(** ** Forwarding (lines 363-398) *)

Fixpoint sendJsonToSplunk (W : World) (endpoints : list endpointDetails)
    (splunkSettings : splunkSettings) : M unit :=
  match endpoints with
  | [] => mret tt
  | endpoint :: rest =>
      now ← (fun t => (Done (Now W t), t));
      name ← match Hostname W with Some name => mret name | None => panic end;
      let splunkMessage :=
        {| Time := now; Host := name; EventSource := Source splunkSettings;
           Event := endpoint |} in
      (* a request that could not be built is nil: setting its header panics *)
      (if NewRequest W (Url splunkSettings) then mret tt else panic);;
      let req :=
        {| RequestURL := Url splunkSettings; Authorization := Authkey splunkSettings;
           ContentType := "application/json"; Payload := splunkMessage |} in
      resp ← (fun t => match Do W t req with
                       | Some resp => (Done resp, t ++ [EvPost req])
                       | None => (Panic, t ++ [EvPost req])
                       end);
      emit (EvLog (ResponseBody resp));;
      if ReadFailed resp
      then emit (EvLog "Reading body failed")
      else sendJsonToSplunk W rest splunkSettings
  end.

(** ** The other emitters *)

Definition printText (endpoints : list endpointDetails) : M unit :=
  emit (EvText endpoints).

Definition printJson (endpoints : list endpointDetails) : M unit :=
  emit (EvJSON endpoints).

(** ** The percentile graph (lines 540-566) *)

Definition zeroXY : XY := {| X := 0; Y := 0 |}.
Definition setX (x : Q) (p : XY) : XY := {| X := x; Y := Y p |}.
Definition setY (y : Q) (p : XY) : XY := {| X := X p; Y := y |}.

(** The loop over the rows of one endpoint, [j] being the index of the
    first row of [rows]. *)
Fixpoint plotRows (W : World) (rows : list string) (j : nat) (points : list XY)
  : result (list XY) :=
  match rows with
  | [] => Done points
  | row :: rest =>
      let values := Fields row in
      if (length values =? 4)%nat then
        match ParseFloat W (nth 3 values "") with
        | None => Fatal
        | Some x =>
            match ParseFloat W (nth 0 values "") with
            | None => Fatal
            | Some y =>
                match points !! j with
                | None => Panic   (* index out of range *)
                | Some p => plotRows W rest (S j) (<[j := setY y (setX x p)]> points)
                end
            end
        end
      else plotRows W rest (S j) points
  end.

(** One endpoint's series from the reporter's text. *)
Definition plotPoints (W : World) (bufferString : string) : result (list XY) :=
  let rows := tail (Split bufferString "010") in
  match rows with
  | [] => Panic   (* make with a negative length *)
  | _ :: _ => plotRows W rows 0 (replicate (length rows - 1) zeroXY)
  end.

(** What the HDR histogram plot reporter writes into the buffer: the
    header line and one line per histogram row, each ended by a
    newline. *)
Fixpoint writeLines (lines : list string) : string :=
  match lines with
  | [] => ""
  | l :: rest => l +:+ String "010" (writeLines rest)
  end.

Definition Report (W : World) (m : vegeta.Metrics) : string :=
  writeLines (HDRHeader W m :: HDRRows W m).

Fixpoint createGraphPoints (W : World) (endpoints : list endpointDetails)
  : result (list (list XY)) :=
  match endpoints with
  | [] => Done []
  | e :: rest =>
      match plotPoints W (Report W (Metrics e)) with
      | Done ps =>
          match createGraphPoints W rest with
          | Done pss => Done (ps :: pss)
          | Fatal => Fatal
          | Panic => Panic
          end
      | Fatal => Fatal
      | Panic => Panic
      end
  end.

(** Line 574 makes the X axis logarithmic: [plot.LogScale] panics on
    a value that is not positive, and the axis starts at the least X of
    the series, so every point must lie right of zero. *)
Definition logScaleFits (points : list (list XY)) : bool :=
  forallb (forallb (fun p => negb (Qle_bool (X p) 0))) points.

(** The series of every endpoint, and then the drawing: the
    logarithmic X axis and whatever else the plotting library needs. *)
Definition createGraph (W : World) (endpoints : list endpointDetails) : M unit :=
  points ← lift (createGraphPoints W endpoints);
  if logScaleFits points && Render W points endpoints then mret tt else panic.

(** ** The PDF report (lines 406-529) *)

Definition createPDF (W : World) (endpoints : list endpointDetails) (output : string) : M unit :=
  (if BoxFind W "arial.ttf" then mret tt else fatal);;
  (if BoxFind W "arial_italic.ttf" then mret tt else fatal);;
  (if BoxFind W "arial_bold.ttf" then mret tt else fatal);;
  (if BoxFind W "nginx_logo.png" then mret tt else fatal);;
  createGraph W endpoints;;
  if OutputFileAndClose W output then emit (EvPDF endpoints output) else fatal.

(** ** The Y axis (lines 741-760) *)

Record Tick := { Value : Q; Label : string }.

(** [i += 50] on a 64-bit [int]. *)
Definition wrap_int (z : Z) : Z := (z + 2 ^ 63) mod 2 ^ 64 - 2 ^ 63.

(** The loop [for i := 0; float64(i) <= max; i += 50], [ticks] being
    what has been appended so far. *)
Fixpoint ticksLoop (fuel : nat) (max : Q) (i : Z) (ticks : list Tick) : option (list Tick) :=
  match fuel with
  | O => None
  | S fuel' =>
      if Qle_bool (inject_Z (float64_of_int i)) max
      then ticksLoop fuel' max (wrap_int (i + 50))
             (ticks ++ [{| Value := inject_Z (float64_of_int i); Label := Itoa i +:+ "ms" |}])
      else Some ticks
  end.

Definition Ticks (fuel : nat) (min max : Q) : option (list Tick) :=
  ticks ← ticksLoop fuel max 0 [];
  Some (ticks ++ [{| Value := inject_Z (float64_of_int 30);
                     Label := "Real-Time -- " +:+ Itoa 30 +:+ "ms" |}]).

(** ** The X axis (lines 702-737) *)

Module customXTicks.
Definition Ticks (min max : Q) : list Tick :=
  [ {| Value := 1; Label := "0%" |};
    {| Value := 10; Label := "90%" |};
    {| Value := 100; Label := "99%" |};
    {| Value := 1000; Label := "99.9%" |};
    {| Value := 10000; Label := "99.99%" |};
    {| Value := 100000; Label := "99.999%" |};
    {| Value := 1000000; Label := "99.9999%" |};
    {| Value := 10000000; Label := "99.99999%" |} ].
End customXTicks.

(** ** The command (lines 106-170) *)

(** Lines 110-124: the checks on the flags and the endpoint list. *)
Definition loadEndpoints (W : World) (c : cli.Context) : M (list endpointDetails) :=
  if negb (cli.IsSet (cli.file c)) && negb (cli.IsSet (cli.data c)) then fatal
  else if cli.IsSet (cli.file c) && cli.IsSet (cli.data c) then fatal
  else if negb (cli.IsSet (cli.output c)) && negb (cli.Bool (cli.print c))
          && negb (cli.Bool (cli.json c)) && String.eqb (cli.String (cli.splunk c)) ""
  then fatal
  else if cli.IsSet (cli.file c) then
    if String.eqb (Ext (cli.String (cli.file c))) ".json"
    then parseEndpointsJSON W (cli.String (cli.file c))
    else if String.eqb (Ext (cli.String (cli.file c))) ".yml"
            || String.eqb (Ext (cli.String (cli.file c))) ".yaml"
    then parseEndpointsYAML W (cli.String (cli.file c))
    else mret []
  else if cli.IsSet (cli.data c) then parseJSONString W (cli.String (cli.data c))
  else mret [].

(** Lines 126-133. *)
Definition loadSplunkSettings (W : World) (c : cli.Context) : M splunkSettings :=
  if cli.IsSet (cli.splunk c) then
    if String.eqb (Ext (cli.String (cli.splunk c))) ".json"
    then parseSplunkSettingsJSON W (cli.String (cli.splunk c))
    else if String.eqb (Ext (cli.String (cli.splunk c))) ".yml"
            || String.eqb (Ext (cli.String (cli.splunk c))) ".yaml"
    then parseSplunkSettingsYAML W (cli.String (cli.splunk c))
    else mret zeroSettings
  else mret zeroSettings.

(** [time.Second] in nanoseconds, and [Duration.Seconds]: the whole
    seconds plus the remaining nanoseconds over 1e9, in [float64]. *)
Definition Second : Z := 1000000000.

Definition Seconds (d : Z) : Q :=
  float64_add (inject_Z (float64_of_int (Z.quot d Second)))
    (float64_div (inject_Z (float64_of_int (Z.rem d Second))) (inject_Z Second)).

(** Lines 136-143: every duration is parsed and its seconds are added
    to [sum]. *)
Fixpoint parseDurations (W : World) (endpointList : list endpointDetails) (sum : Q) : M Q :=
  match endpointList with
  | [] => mret sum
  | e :: rest =>
      match ParseDuration W (Duration (Query e)) with
      | None => fatal
      | Some duration => parseDurations W rest (float64_add sum (Seconds duration))
      end
  end.

(** Lines 531-538, as far as the trace shows it: the bar is started
    for [sum] seconds. *)
Definition showProgressBar (sum : Z) : M unit := emit (EvProgress sum).

(** Lines 150-152: [endpointList[i].Metrics = queryAPI(endpointList[i])]
    for [i] from the given index on, [todo] being the number of
    indices left. *)
Fixpoint queryFrom (W : World) (todo i : nat) (endpointList : list endpointDetails)
  : M (list endpointDetails) :=
  match todo with
  | O => mret endpointList
  | S todo' =>
      match endpointList !! i with
      | None => mret endpointList
      | Some endpoint =>
          metrics ← queryAPI W endpoint;
          queryFrom W todo' (S i) (<[i := setMetrics metrics endpoint]> endpointList)
      end
  end.

Definition queryEndpoints (W : World) (endpointList : list endpointDetails)
  : M (list endpointDetails) :=
  queryFrom W (length endpointList) 0 endpointList.

(** Lines 153-168. *)
Definition emitReports (W : World) (c : cli.Context) (endpointList : list endpointDetails)
    (splunkSettings : splunkSettings) : M unit :=
  (if cli.Bool (cli.print c) then printText endpointList else mret tt);;
  (if cli.IsSet (cli.output c)
   then createPDF W endpointList (cli.String (cli.output c)) else mret tt);;
  (if cli.IsSet (cli.json c) then printJson endpointList else mret tt);;
  (if cli.IsSet (cli.splunk c)
   then sendJsonToSplunk W endpointList splunkSettings else mret tt).

Definition main (W : World) (c : cli.Context) : M unit :=
  endpointList ← loadEndpoints W c;
  splunkSettings ← loadSplunkSettings W c;
  sum ← parseDurations W endpointList 0%Q;
  (if negb (cli.IsSet (cli.quiet c))
   then showProgressBar (int_of_float64 sum) else mret tt);;
  endpointList ← queryEndpoints W endpointList;
  emitReports W c endpointList splunkSettings.

(** ** Statements about the resolver *)

Inductive encoding := JSON | YAML.

Definition decoder (enc : encoding)
    (metrics : node -> vegeta.Metrics -> option vegeta.Metrics) : Decoder :=
  match enc with JSON => json metrics | YAML => yaml metrics end.

Definition Unmarshal (enc : encoding)
    (metrics : node -> vegeta.Metrics -> option vegeta.Metrics) (n : node)
  : option endpointDetails :=
  match enc with JSON => UnmarshalJSON metrics n | YAML => UnmarshalYAML metrics n end.

(** Every query field is resolved by presence. *)
Definition presence_based (D : Decoder) (rec : list (string * node)) (q : endpointQuery) : Prop :=
  resolved (as_uint64 D) 2 (given D FThreads rec) (Threads q)
  /\ resolved (as_uint64 D) 2 (given D FMaxThreads rec) (MaxThreads q)
  /\ resolved (as_int D) 10 (given D FConnections rec) (Connections q)
  /\ resolved (as_string D) "10s"%string (given D FDuration rec) (Duration q)
  /\ resolved (as_int D) 500 (given D FRequestRate rec) (RequestRate q).

(** A decoder reads an integer of at most 64 bits as the value
    written or not at all, it does read one that fits the field, zero
    included, and it reads a string as it is. *)
Definition verbatim (D : Decoder) : Prop :=
  (forall z src v, int_min <= z <= uint64_max -> as_uint64 D (Int z src) = Some v -> v = z)
  /\ (forall z src v, int_min <= z <= uint64_max -> as_int D (Int z src) = Some v -> v = z)
  /\ (forall z src, 0 <= z <= uint64_max -> String.prefix "-" src = false ->
        as_uint64 D (Int z src) = Some z)
  /\ (forall z src, int_min <= z <= int_max -> as_int D (Int z src) = Some z)
  /\ (forall s, as_string D (Str s) = Some s).

(** What becomes of a number written with a fraction or an exponent in
    an integer field: JSON rejects it, YAML converts its [float64]. *)
Definition float_reading (enc : encoding) (D : Decoder) : Prop :=
  forall q src,
    match enc with
    | JSON => as_uint64 D (Float q src) = None /\ as_int D (Float q src) = None
    | YAML =>
        as_uint64 D (Float q src)
          = (if Qle_bool q (inject_Z (2 ^ 64)) then Some (uint64_of_float64 q) else None)
        /\ as_int D (Float q src)
           = (if Qle_bool q (inject_Z (2 ^ 63)) then Some (int_of_float64 q) else None)
    end.

(** A record gives a query field no value when every member of its
    [query_parameters] that names the field is null. *)
Definition not_given (D : Decoder) (f : queryField) (rec : list (string * node)) : Prop :=
  Forall (fun kv => field_of_key D queryFields queryTag (fst kv) = Some f -> snd kv = Null)
    (query_members D rec).

(** The value a record gives a worker-count field, 2 when it gives
    none. *)
Definition workers (D : Decoder) (f : queryField) (rec : list (string * node)) : option Z :=
  match given D f rec with
  | None => Some 2
  | Some v => as_uint64 D v
  end.

(** ** Statements about the command *)

(** The user-input errors: no input, two inputs, no output, or input
    that does not decode in the encoding its source claims (the file's
    extension; JSON for inline data). *)
Inductive config_error (W : World) (c : cli.Context) : Prop :=
| NoInput :
    cli.file c = None -> cli.data c = None -> config_error W c
| TwoInputs file data :
    cli.file c = Some file -> cli.data c = Some data -> config_error W c
| NoOutput :
    cli.output c = None -> cli.Bool (cli.print c) = false ->
    cli.Bool (cli.json c) = false -> cli.String (cli.splunk c) = ""%string ->
    config_error W c
| BadJSONFile file bytes :
    cli.file c = Some file -> Ext file = ".json"%string ->
    ReadFile W file = Some (Some bytes) -> unmarshalEndpointsJSON W bytes = None ->
    config_error W c
| BadYAMLFile file bytes :
    cli.file c = Some file -> Ext file = ".yml"%string \/ Ext file = ".yaml"%string ->
    ReadFile W file = Some (Some bytes) -> unmarshalEndpointsYAML W bytes = None ->
    config_error W c
| BadData value :
    cli.data c = Some value -> unmarshalEndpointsJSON W value = None ->
    config_error W c.

(** One load run as the trace shows it. *)
Definition attackEvent (W : World) (e : endpointDetails) : event :=
  EvAttack (Target e) (Query e) (default 0 (ParseDuration W (Duration (Query e)))).

Definition is_attack (e : event) : bool :=
  match e with EvAttack _ _ _ => true | _ => false end.

(** The list with each spec's metrics attached: those of its own run,
    which starts when the trace holds the runs of the specs before it. *)
Fixpoint attachMetrics (W : World) (t : list event) (l : list endpointDetails)
  : list endpointDetails :=
  match l with
  | [] => []
  | e :: rest =>
      setMetrics (Attack W t (Target e) (Query e)
                    (default 0 (ParseDuration W (Duration (Query e))))) e
      :: attachMetrics W (t ++ [attackEvent W e]) rest
  end.

(** What an emitter shows of the endpoint list [l]: nothing but [l]
    itself, or an element of it in a forwarded event. *)
Definition reports_on (l : list endpointDetails) (ev : event) : Prop :=
  match ev with
  | EvText x | EvJSON x | EvPDF x _ => x = l
  | EvPost req => In (Event (Payload req)) l
  | EvLog _ => True
  | EvOpen _ | EvProgress _ | EvAttack _ _ _ => False
  end.

(** The seconds of the durations added up one after the other, from
    [sum] on, and what the progress bar is given of them. *)
Definition sumSeconds (durations : list Z) (sum : Q) : Q :=
  fold_left (fun sum d => float64_add sum (Seconds d)) durations sum.

Definition progressSeconds (durations : list Z) : Z :=
  int_of_float64 (sumSeconds durations 0%Q).

(** The whole seconds of the durations, added up exactly. *)
Definition wholeSeconds (durations : list Z) : Z :=
  foldr Z.add 0 ((fun d => d / Second) <$> durations).

(** The start of the progress bar, unless [--quiet] is set. *)
Definition progressEvents (c : cli.Context) (durations : list Z) : list event :=
  if cli.IsSet (cli.quiet c) then [] else [EvProgress (progressSeconds durations)].

(** The endpoints whose events the trace shows as sent to the sink. *)
Definition posted (t : list event) : list endpointDetails :=
  flat_map (fun ev => match ev with EvPost req => [Event (Payload req)] | _ => [] end) t.

(** The request that forwards [e] when the trace is [t]. *)
Definition forwardRequest (W : World) (s : splunkSettings) (t : list event)
    (e : endpointDetails) : request :=
  {| RequestURL := Url s; Authorization := Authkey s; ContentType := "application/json";
     Payload := {| Time := Now W t; Host := default "" (Hostname W);
                   EventSource := Source s; Event := e |} |}.

(** ** Further statements about the resolver *)

(** The members of a mapping whose key names a field of the struct. *)
Definition known_only {F : Type} (D : Decoder) (fields : list F) (tag : F -> string)
    (ms : list (string * node)) : list (string * node) :=
  List.filter (fun kv => match field_of_key D fields tag (fst kv) with
                         | Some _ => true
                         | None => false
                         end) ms.

(** The keys of a mapping are such that the decoder takes it: none
    occurs twice when keys are to be unique. *)
Definition keys_accepted (D : Decoder) (ms : list (string * node)) : bool :=
  negb (unique_keys D && repeated_key ms).

(** No member of the record names the field [f]. *)
Definition leaves_out (D : Decoder) (f : detailsField) (rec : list (string * node)) : Prop :=
  Forall (fun kv => field_of_key D detailsFields detailsTag (fst kv) <> Some f) rec.

(** ** Statements about the graph *)

(** A string without a newline. *)
Fixpoint one_line (s : string) : bool :=
  match s with
  | EmptyString => true
  | String c r => negb (Ascii.eqb c "010") && one_line r
  end.

Definition parses (W : World) (s : string) : bool :=
  match ParseFloat W s with Some _ => true | None => false end.

(** A row of four fields whose fourth or first field is not a number. *)
Definition row_fails (W : World) (row : string) : bool :=
  (length (Fields row) =? 4)%nat
  && (negb (parses W (nth 3 (Fields row) "")) || negb (parses W (nth 0 (Fields row) ""))).

(** The point a row stands for: its fourth field as X and its first as
    Y, or the zero point when it has not four fields. *)
Definition rowPoint (W : World) (row : string) : XY :=
  if (length (Fields row) =? 4)%nat
  then {| X := default 0%Q (ParseFloat W (nth 3 (Fields row) ""));
          Y := default 0%Q (ParseFloat W (nth 0 (Fields row) "")) |}
  else zeroXY.

(** The number a percent label writes: decimal digits, at most one
    point, and a closing percent sign. *)
Fixpoint percentOf (s : string) (num : Z) (den : positive) (frac : bool) : option Q :=
  match s with
  | EmptyString => None
  | String c r =>
      if Ascii.eqb c "%" then
        match r with EmptyString => Some (num # den) | _ => None end
      else if Ascii.eqb c "." then
        if frac then None else percentOf r num den true
      else
        let d := Z.of_nat (nat_of_ascii c) - 48 in
        if (0 <=? d) && (d <=? 9)
        then percentOf r (10 * num + d) (if frac then 10 * den else den)%positive frac
        else None
  end.

Definition percentile (label : string) : option Q := percentOf label 0 1 false.

(** ** Statements about forwarding *)

(** What forwarding with the settings [s] may add to the trace: a
    request to the configured URL, with the configured key and source
    and the local host name, or a log line. *)
Definition forwarded_with (W : World) (s : splunkSettings) (ev : event) : Prop :=
  match ev with
  | EvPost req =>
      RequestURL req = Url s /\ Authorization req = Authkey s
      /\ ContentType req = "application/json"%string
      /\ EventSource (Payload req) = Source s
      /\ Hostname W = Some (Host (Payload req))
  | EvLog _ => True
  | _ => False
  end.

(** ** Statements about the reports *)

(** Everything [createPDF] needs: the four packed files, the series of
    every endpoint, each point right of zero, the rendering and the
    output file. *)
Definition pdfGoesThrough (W : World) (endpoints : list endpointDetails) (output : string)
  : bool :=
  BoxFind W "arial.ttf" && BoxFind W "arial_italic.ttf" && BoxFind W "arial_bold.ttf"
  && BoxFind W "nginx_logo.png"
  && match createGraphPoints W endpoints with
     | Done points => logScaleFits points && Render W points endpoints
     | _ => false
     end
  && OutputFileAndClose W output.

(** What the flags allow in the trace. *)
Definition requested (c : cli.Context) (ev : event) : Prop :=
  match ev with
  | EvOpen file => cli.file c = Some file \/ cli.splunk c = Some file
  | EvProgress _ => cli.quiet c = None
  | EvAttack _ _ _ => True
  | EvText _ => cli.Bool (cli.print c) = true
  | EvPDF _ output => cli.output c = Some output
  | EvJSON _ => cli.IsSet (cli.json c) = true
  | EvPost _ | EvLog _ => cli.IsSet (cli.splunk c) = true
  end.

Definition is_open (ev : event) : bool :=
  match ev with EvOpen _ => true | _ => false end.

(** What may follow the reading of the configuration. *)
Definition after_loading (c : cli.Context) (ev : event) : Prop :=
  is_open ev = false /\ requested c ev.

(** Lines 136-168: what [main] does once the configuration is read. *)
Definition runAndReport (W : World) (c : cli.Context) (endpointList : list endpointDetails)
    (splunkSettings : splunkSettings) : M unit :=
  sum ← parseDurations W endpointList 0%Q;
  (if negb (cli.IsSet (cli.quiet c))
   then showProgressBar (int_of_float64 sum) else mret tt);;
  endpointList ← queryEndpoints W endpointList;
  emitReports W c endpointList splunkSettings.

(** What a forwarded event must look like under the settings [s];
    other events are free. *)
Definition posts_with (W : World) (s : splunkSettings) (ev : event) : Prop :=
  match ev with
  | EvPost _ => forwarded_with W s ev
  | _ => True
  end.

(** ** Sample inputs *)

Definition noMetrics : node -> vegeta.Metrics -> option vegeta.Metrics :=
  fun _ _ => None.

(** A record that sets the request rate to zero and leaves the worker
    counts and the connections out. *)
Definition zeroRateRecord : list (string * node) :=
  [("target", Map [("method", Str "GET"); ("url", Str "http://localhost/a")]);
   ("query_parameters", Map [("request_rate", Int 0 "0"); ("duration", Str "3s")])].

Definition zeroRateSpec : endpointDetails :=
  {| Target := {| Method := "GET"; URL := "http://localhost/a"; Body := ""; Header := ∅ |};
     Query := {| Threads := 2; MaxThreads := 2; Connections := 10;
                 Duration := "3s"; RequestRate := 0 |};
     Metrics := vegeta.zero |}.

(** A record that sets five threads and leaves [max_threads] out. *)
Definition fiveThreadsRecord : list (string * node) :=
  [("query_parameters", Map [("threads", Int 5 "5")])].

Definition fiveThreadsSpec : endpointDetails :=
  {| Target := zeroTarget;
     Query := {| Threads := 5; MaxThreads := 2; Connections := 10;
                 Duration := "10s"; RequestRate := 500 |};
     Metrics := vegeta.zero |}.

(** A record whose duration does not parse. *)
Definition badDurationRecord : list (string * node) :=
  [("target", Map [("method", Str "GET"); ("url", Str "http://localhost/b")]);
   ("query_parameters", Map [("duration", Str "soon")])].

(** A second record, like the first but for its URL. *)
Definition secondRecord : list (string * node) :=
  [("target", Map [("method", Str "GET"); ("url", Str "http://localhost/b")]);
   ("query_parameters", Map [("request_rate", Int 0 "0"); ("duration", Str "3s")])].

Definition secondSpec : endpointDetails :=
  setTarget (setURL "http://localhost/b" (Target zeroRateSpec)) zeroRateSpec.

Definition thirdSpec : endpointDetails :=
  setTarget (setURL "http://localhost/c" (Target zeroRateSpec)) zeroRateSpec.

(** A world with a few configuration files, an engine that reports as
    many requests as rate times seconds, and a sink that answers the
    second event it gets with status 500. *)
Definition demoWorld : World :=
  {| ReadFile := fun file =>
       if String.eqb file "endpoints.json" then Some (Some "one endpoint")
       else if String.eqb file "pair.json" then Some (Some "two endpoints")
       else if String.eqb file "late.json" then Some (Some "bad duration")
       else if String.eqb file "broken.json" then Some (Some "not json")
       else if String.eqb file "notes.txt" then Some (Some "one endpoint")
       else None;
     json_syntax := fun bytes =>
       if String.eqb bytes "one endpoint" then Some (Seq [Map zeroRateRecord])
       else if String.eqb bytes "two endpoints"
       then Some (Seq [Map zeroRateRecord; Map secondRecord])
       else if String.eqb bytes "bad duration"
       then Some (Seq [Map zeroRateRecord; Map badDurationRecord])
       else None;
     yaml_syntax := fun _ => None;
     json_metrics := noMetrics;
     yaml_metrics := noMetrics;
     ParseDuration := fun s =>
       if String.eqb s "10s" then Some 10000000000
       else if String.eqb s "3s" then Some 3000000000
       else None;
     ParseFloat := fun s => if String.eqb s "x" then None else Some (Z.of_nat (String.length s) # 1);
     Attack := fun _ _ q d =>
       {| vegeta.Latencies := vegeta.Latencies vegeta.zero;
          vegeta.BytesIn := 0; vegeta.BytesOut := 0;
          vegeta.Duration := d; vegeta.Wait := 0;
          vegeta.Requests := RequestRate q * (d / 1000000000) |};
     Hostname := Some "localhost";
     Now := fun t => Z.of_nat (length t);
     NewRequest := fun _ => true;
     Do := fun t _ =>
       Some {| StatusCode :=
                 if (length (List.filter is_network t) =? 1)%nat then 500 else 200;
               ResponseBody := "reply"; ReadFailed := false |};
     HDRHeader := fun _ => "Value(ms)  Percentile  TotalCount  1/(1-Percentile)";
     HDRRows := fun _ => ["0.100000  0.000000  0  1.000000"; "0.200000  0.500000  1  2.000000"];
     BoxFind := fun _ => true;
     Render := fun _ _ => true;
     OutputFileAndClose := fun _ => true |}.

(** [rtapi --file F --print] *)
Definition printFile (F : string) : cli.Context :=
  {| cli.file := Some F; cli.data := None; cli.output := None; cli.print := Some true;
     cli.json := None; cli.splunk := None; cli.quiet := None |}.

Definition demoSettings : splunkSettings :=
  {| Url := "http://splunk.local/collector"; Authkey := "Splunk key"; Source := "rtapi" |}.

(** The same world with a sink that is gone after two events. *)
Definition downAfterTwo : World :=
  {| ReadFile := ReadFile demoWorld;
     json_syntax := json_syntax demoWorld;
     yaml_syntax := yaml_syntax demoWorld;
     json_metrics := noMetrics;
     yaml_metrics := noMetrics;
     ParseDuration := ParseDuration demoWorld;
     ParseFloat := ParseFloat demoWorld;
     Attack := Attack demoWorld;
     Hostname := Some "localhost";
     Now := Now demoWorld;
     NewRequest := fun _ => true;
     Do := fun t _ =>
       if (length (posted t) <? 2)%nat
       then Some {| StatusCode := 503; ResponseBody := "busy"; ReadFailed := false |}
       else None;
     HDRHeader := HDRHeader demoWorld;
     HDRRows := HDRRows demoWorld;
     BoxFind := BoxFind demoWorld;
     Render := Render demoWorld;
     OutputFileAndClose := OutputFileAndClose demoWorld |}.




(** A world like [W] but for its host name and its sink. *)
Definition withSink (W : World) (host : option string)
    (sink : list event -> request -> option response) : World :=
  {| ReadFile := ReadFile W;
     json_syntax := json_syntax W;
     yaml_syntax := yaml_syntax W;
     json_metrics := json_metrics W;
     yaml_metrics := yaml_metrics W;
     ParseDuration := ParseDuration W;
     ParseFloat := ParseFloat W;
     Attack := Attack W;
     Hostname := host;
     Now := Now W;
     NewRequest := NewRequest W;
     Do := sink;
     HDRHeader := HDRHeader W;
     HDRRows := HDRRows W;
     BoxFind := BoxFind W;
     Render := Render W;
     OutputFileAndClose := OutputFileAndClose W |}.

(** A sink whose second reply breaks off while it is read. *)
Definition brokenReply : World :=
  withSink demoWorld (Some "localhost") (fun t _ =>
    Some {| StatusCode := 200; ResponseBody := "rep";
            ReadFailed := (length (posted t) =? 1)%nat |}).

(** A machine that cannot tell its host name. *)
Definition noHostName : World := withSink demoWorld None (Do demoWorld).

(** A world like [W] in which the packed files are missing. *)
Definition withoutFonts (W : World) : World :=
  {| ReadFile := ReadFile W;
     json_syntax := json_syntax W;
     yaml_syntax := yaml_syntax W;
     json_metrics := json_metrics W;
     yaml_metrics := yaml_metrics W;
     ParseDuration := ParseDuration W;
     ParseFloat := ParseFloat W;
     Attack := Attack W;
     Hostname := Hostname W;
     Now := Now W;
     NewRequest := NewRequest W;
     Do := Do W;
     HDRHeader := HDRHeader W;
     HDRRows := HDRRows W;
     BoxFind := fun _ => false;
     Render := Render W;
     OutputFileAndClose := OutputFileAndClose W |}.

(** [rtapi --file endpoints.json --print --output report.pdf --json] *)
Definition allReports : cli.Context :=
  {| cli.file := Some "endpoints.json"; cli.data := None; cli.output := Some "report.pdf";
     cli.print := Some true; cli.json := Some true; cli.splunk := None; cli.quiet := None |}.

(** [rtapi --file endpoints.json --print --json=false --quiet=false] *)
Definition jsonSetToFalse : cli.Context :=
  {| cli.file := Some "endpoints.json"; cli.data := None; cli.output := None;
     cli.print := Some true; cli.json := Some false; cli.splunk := None;
     cli.quiet := Some false |}.

(** [rtapi --file endpoints.json --splunk settings.txt] *)
Definition splunkTxt : cli.Context :=
  {| cli.file := Some "endpoints.json"; cli.data := None; cli.output := None;
     cli.print := None; cli.json := None; cli.splunk := Some "settings.txt";
     cli.quiet := None |}.

(** A YAML record that writes zero threads, null for [max_threads] and
    a duration, and leaves the rest out. *)
Definition zeroThreadsRecord : list (string * node) :=
  [("query_parameters",
    Map [("threads", Int 0 "0"); ("max_threads", Null); ("duration", Str "3s")])].

Definition zeroThreadsSpec : endpointDetails :=
  {| Target := zeroTarget;
     Query := {| Threads := 0; MaxThreads := 2; Connections := 10;
                 Duration := "3s"; RequestRate := 500 |};
     Metrics := vegeta.zero |}.

(** Records that give [threads] as [2.5], as 2^64 and as null. *)
Definition halfThreadsRecord : list (string * node) :=
  [("query_parameters", Map [("threads", Float (5 # 2) "2.5")])].

Definition hugeThreadsRecord : list (string * node) :=
  [("query_parameters",
    Map [("threads", Float (inject_Z (2 ^ 64)) "18446744073709551616")])].

Definition nullThreadsRecord : list (string * node) :=
  [("query_parameters", Map [("threads", Null)])].

(** A record with a note beside five threads. *)
Definition notedRecord : list (string * node) :=
  [("note", Str "first try"); ("query_parameters", Map [("threads", Int 5 "5")])].

(** The defaults with another number of threads. *)
Definition withThreads (n : Z) : endpointDetails :=
  {| Target := zeroTarget;
     Query := {| Threads := n; MaxThreads := 2; Connections := 10;
                 Duration := "10s"; RequestRate := 500 |};
     Metrics := vegeta.zero |}.

(** * Properties *)

(** ** The configuration resolver *)

Section StoreMembers.
Context {T F A : Type} (D : Decoder).
Context (fields : list F) (tag : F -> string) (F_eqb : F -> F -> bool).
Context (put : F -> node -> T -> option T).
Context (f : F) (proj : T -> A) (conv : node -> option A).
Hypothesis F_eqb_eq : forall f', F_eqb f' f = true -> f' = f.
Hypothesis put_other : forall f' v s s',
  F_eqb f' f = false -> put f' v s = Some s' -> proj s' = proj s.
Hypothesis put_this : forall v s s',
  put f v s = Some s' ->
  if is_null v then proj s' = proj s else conv v = Some (proj s').

Lemma supplied_app ms1 ms2 :
  supplied D fields tag F_eqb f (ms1 ++ ms2) =
  match supplied D fields tag F_eqb f ms2 with
  | Some v => Some v
  | None => supplied D fields tag F_eqb f ms1
  end.
Proof.
  induction ms1 as [|kv ms1 IH]; simpl.
  - by destruct (supplied _ _ _ _ _ ms2).
  - rewrite IH. by destruct (supplied _ _ _ _ _ ms2).
Qed.

Lemma store_member_field acc kv acc' :
  store_member D fields tag F_eqb put acc kv = Some acc' ->
  match supplied D fields tag F_eqb f [kv] with
  | None => proj (fst acc') = proj (fst acc)
  | Some v => conv v = Some (proj (fst acc'))
  end.
Proof.
  unfold store_member. simpl.
  destruct (field_of_key D fields tag (fst kv)) as [f'|]; [|by intros [= <-]].
  destruct (unique_keys D && existsb (F_eqb f') (snd acc)); [done|].
  destruct (put f' (snd kv) (fst acc)) as [s'|] eqn:Hput; [|done].
  intros [= <-]. simpl.
  destruct (F_eqb f' f) eqn:Hf; simpl.
  - apply F_eqb_eq in Hf as ->. apply put_this in Hput.
    by destruct (is_null (snd kv)).
  - by eapply put_other.
Qed.

Lemma store_members_field ms : forall acc acc',
  store_members D fields tag F_eqb put ms acc = Some acc' ->
  match supplied D fields tag F_eqb f ms with
  | None => proj (fst acc') = proj (fst acc)
  | Some v => conv v = Some (proj (fst acc'))
  end.
Proof.
  induction ms as [|kv ms IH]; intros acc acc'.
  - by intros [= <-].
  - cbn [store_members]. 
    destruct (store_member D fields tag F_eqb put acc kv) as [acc1|] eqn:H1; [|done].
    intros H2. apply IH in H2. apply store_member_field in H1.
    change (kv :: ms) with ([kv] ++ ms). rewrite supplied_app.
    destruct (supplied _ _ _ _ _ ms); [done|].
    destruct (supplied _ _ _ _ _ [kv]); congruence.
Qed.
End StoreMembers.

Lemma queryField_eqb_eq (a b : queryField) : queryField_eqb a b = true -> a = b.
Proof. by destruct a, b. Qed.

(** The query fields of a record come from the members of its
    [query_parameters] mappings, whatever else the record holds. *)
Lemma store_details_query {A} (D : Decoder) (f : queryField)
    (proj : endpointQuery -> A) (conv : node -> option A) :
  (forall f' v s s', queryField_eqb f' f = false ->
     setQueryField D f' v s = Some s' -> proj s' = proj s) ->
  (forall v s s', setQueryField D f v s = Some s' ->
     if is_null v then proj s' = proj s else conv v = Some (proj s')) ->
  forall rec acc acc',
    store_members D detailsFields detailsTag detailsField_eqb (setDetailsField D) rec acc
      = Some acc' ->
    match given D f rec with
    | None => proj (Query (fst acc')) = proj (Query (fst acc))
    | Some v => conv v = Some (proj (Query (fst acc')))
    end.
Proof.
  intros Hother Hthis. unfold given, query_members.
  induction rec as [|kv rec IH]; intros acc acc'.
  - by intros [= <-].
  - cbn [store_members flat_map].
    destruct (store_member _ _ _ _ _ acc kv) as [acc1|] eqn:H1; [|done].
    intros H2. apply IH in H2. rewrite supplied_app.
    destruct (supplied _ _ _ _ f (flat_map _ rec)); [done|].
    rewrite H2. clear H2 IH. revert H1. unfold store_member.
    destruct (field_of_key D detailsFields detailsTag (fst kv)) as [[]|];
      [| | |by intros [= <-]];
      (destruct (unique_keys D && _); [done|]); simpl.
    + destruct (storeTarget D (snd kv) (Target (fst acc))); [|done].
      by intros [= <-].
    + unfold storeQuery, store_struct.
      destruct (snd kv) as [| | | | | |ms]; simpl; try done.
      * by intros [= <-].
      * destruct (unique_keys D && repeated_key ms); [done|].
        destruct (store_members _ _ _ _ _ ms _) as [q1|] eqn:Hq; [|done].
        simpl. intros [= <-]. simpl.
        by apply (store_members_field D queryFields queryTag queryField_eqb
                    (setQueryField D) f proj conv
                    (fun f' => queryField_eqb_eq f' f) Hother Hthis) in Hq.
    + destruct (store _ _ _); [|done]. by intros [= <-].
Qed.

Ltac other_field :=
  intros [] ? ? ? ?; try done; unfold setQueryField; intros ?; by simplify_option_eq.

Ltac this_field :=
  intros [] ? ?; unfold setQueryField, store; simpl; intros ?; by simplify_option_eq.

Lemma resolve_query (D : Decoder) (rec : list (string * node))
    (d d' : endpointDetails) :
  storeDetails D (Map rec) d = Some d' ->
  Query d = {| Threads := 2; MaxThreads := 2; Connections := 10;
               Duration := "10s"; RequestRate := 500 |} ->
  presence_based D rec (Query d').
Proof.
  unfold storeDetails, store_struct.
  destruct (unique_keys D && repeated_key rec); [done|].
  destruct (store_members _ _ _ _ _ rec _) as [acc'|] eqn:H; [|done].
  simpl. intros [= <-] Hq.
  pose proof (fun A f proj conv H1 H2 =>
    @store_details_query A D f proj conv H1 H2 rec _ _ H) as R.
  simpl in R. rewrite Hq in R. unfold presence_based, resolved.
  repeat split.
  - apply (R _ FThreads Threads (as_uint64 D)); [other_field|this_field].
  - apply (R _ FMaxThreads MaxThreads (as_uint64 D)); [other_field|this_field].
  - apply (R _ FConnections Connections (as_int D)); [other_field|this_field].
  - apply (R _ FDuration Duration (as_string D)); [other_field|this_field].
  - apply (R _ FRequestRate RequestRate (as_int D)); [other_field|this_field].
Qed.

Lemma verbatim_decoder enc metrics : verbatim (decoder enc metrics).
Proof.
  destruct enc; repeat split; simpl; intros; try done;
    unfold yaml_number, int_min, int_max, uint64_max in *;
    repeat match goal with
           | H : String.prefix _ _ = false |- _ => rewrite H in *; clear H
           end;
    repeat case_match; simplify_eq; try done; lia.
Qed.

Lemma float_reading_decoder enc metrics : float_reading enc (decoder enc metrics).
Proof. by destruct enc. Qed.

Lemma given_not_given (D : Decoder) (f : queryField) (rec : list (string * node)) :
  given D f rec = None <-> not_given D f rec.
Proof.
  unfold given, not_given.
  induction (query_members D rec) as [|kv ms IH]; cbn [supplied].
  - split; [constructor|done].
  - rewrite Forall_cons, <- IH. clear IH.
    destruct (supplied _ _ _ _ f ms) as [v|]; [split; [done|by intros [_ ?]]|].
    destruct (field_of_key D queryFields queryTag (fst kv)) as [f'|];
      [|split; [by split|done]].
    destruct (queryField_eqb f' f) eqn:Hf; simpl.
    + apply queryField_eqb_eq in Hf as ->.
      destruct (snd kv); simpl; (split; [try done; by split|]);
        try done; intros [Hn _]; by specialize (Hn eq_refl).
    + split; [|done]. intros _. split; [|done]. intros [= ->]. by destruct f.
Qed.

(** C1, as the code has it.  A record decoded by [UnmarshalJSON] or
    [UnmarshalYAML] has, in each query field, the fixed default
    (threads 2, max_threads 2, connections 10, duration 10s,
    request_rate 500) when the record gives the field no value, that
    is when it leaves the field out or writes null for it, and the
    decoder's reading of the value when it gives one.  The reading is
    the value written for an integer of at most 64 bits, zero included,
    and for a string; a number written with a fraction or an exponent
    is rejected by JSON and cut to an integer through [float64] by
    YAML. *)
Theorem defaults_by_presence (enc : encoding)
    (metrics : node -> vegeta.Metrics -> option vegeta.Metrics)
    (rec : list (string * node)) (e : endpointDetails) :
  Unmarshal enc metrics (Map rec) = Some e ->
  presence_based (decoder enc metrics) rec (Query e)
  /\ (forall f, given (decoder enc metrics) f rec = None
                <-> not_given (decoder enc metrics) f rec)
  /\ verbatim (decoder enc metrics)
  /\ float_reading enc (decoder enc metrics).
Proof.
  intros H. split; [|split; [|split]].
  - destruct enc;
      cbv beta iota zeta delta [Unmarshal UnmarshalJSON UnmarshalYAML] in H;
      (eapply resolve_query; [exact H | reflexivity]).
  - intros f. apply given_not_given.
  - apply verbatim_decoder.
  - apply float_reading_decoder.
Qed.

(** Instances: in JSON a request rate written as zero is kept and the
    fields left out get their defaults; in YAML zero threads are kept
    and a null [max_threads] gets its default. *)
Lemma defaults_by_presence_zero_rate :
  (presence_based (decoder JSON noMetrics) zeroRateRecord (Query zeroRateSpec)
   /\ (forall f, given (decoder JSON noMetrics) f zeroRateRecord = None
                 <-> not_given (decoder JSON noMetrics) f zeroRateRecord)
   /\ verbatim (decoder JSON noMetrics)
   /\ float_reading JSON (decoder JSON noMetrics))
  /\ (Unmarshal YAML noMetrics (Map zeroThreadsRecord) = Some zeroThreadsSpec
      /\ presence_based (decoder YAML noMetrics) zeroThreadsRecord (Query zeroThreadsSpec)
      /\ (forall f, given (decoder YAML noMetrics) f zeroThreadsRecord = None
                    <-> not_given (decoder YAML noMetrics) f zeroThreadsRecord)
      /\ verbatim (decoder YAML noMetrics)
      /\ float_reading YAML (decoder YAML noMetrics)).
Proof.
  split; [|split; [reflexivity|]].
  - apply (defaults_by_presence JSON noMetrics zeroRateRecord zeroRateSpec).
    reflexivity.
  - apply (defaults_by_presence YAML noMetrics zeroThreadsRecord zeroThreadsSpec).
    reflexivity.
Defined.

(** C1, as stated, fails: a field that is present does not always get
    the value written.  In YAML threads written as [2.5] resolve to 2
    and threads written as 2^64 resolve to 2^63; in either encoding
    threads written as null resolve to the default 2. *)
Lemma present_value_is_not_always_kept :
  (UnmarshalYAML noMetrics (Map halfThreadsRecord) = Some (withThreads 2)
   /\ ~ (inject_Z (Threads (Query (withThreads 2))) == 5 # 2)%Q)
  /\ (UnmarshalYAML noMetrics (Map hugeThreadsRecord) = Some (withThreads (2 ^ 63))
      /\ Threads (Query (withThreads (2 ^ 63))) <> 2 ^ 64)
  /\ UnmarshalJSON noMetrics (Map nullThreadsRecord) = Some (withThreads 2)
  /\ UnmarshalYAML noMetrics (Map nullThreadsRecord) = Some (withThreads 2).
Proof.
  repeat split; try (vm_compute; reflexivity); vm_compute; discriminate.
Qed.

(** C7, as the code has it.  The resolver neither checks nor adjusts the
    two worker counts: a resolved spec has threads at most max_threads
    exactly when the values the record gives them (2 for one it leaves
    out) are so ordered, and so whenever the record leaves both out. *)
Theorem threads_le_max_threads_as_given (enc : encoding)
    (metrics : node -> vegeta.Metrics -> option vegeta.Metrics)
    (rec : list (string * node)) (e : endpointDetails) :
  Unmarshal enc metrics (Map rec) = Some e ->
  (forall t m,
     workers (decoder enc metrics) FThreads rec = Some t ->
     workers (decoder enc metrics) FMaxThreads rec = Some m ->
     (Threads (Query e) <= MaxThreads (Query e) <-> t <= m))
  /\ (given (decoder enc metrics) FThreads rec = None ->
      given (decoder enc metrics) FMaxThreads rec = None ->
      Threads (Query e) <= MaxThreads (Query e)).
Proof.
  intros H.
  assert (presence_based (decoder enc metrics) rec (Query e)) as (Ht & Hm & _).
  { destruct enc;
      cbv beta iota zeta delta [Unmarshal UnmarshalJSON UnmarshalYAML] in H;
      (eapply resolve_query; [exact H | reflexivity]). }
  unfold workers, resolved in *. split.
  - intros t m.
    destruct (given _ FThreads rec), (given _ FMaxThreads rec);
      intros; simplify_eq; lia.
  - intros Hnt Hnm. rewrite Hnt in Ht. rewrite Hnm in Hm. lia.
Qed.

(** An instance: both worker counts left out. *)
Lemma threads_le_max_threads_as_given_zero_rate :
  (forall t m,
     workers (decoder JSON noMetrics) FThreads zeroRateRecord = Some t ->
     workers (decoder JSON noMetrics) FMaxThreads zeroRateRecord = Some m ->
     (Threads (Query zeroRateSpec) <= MaxThreads (Query zeroRateSpec) <-> t <= m))
  /\ (given (decoder JSON noMetrics) FThreads zeroRateRecord = None ->
      given (decoder JSON noMetrics) FMaxThreads zeroRateRecord = None ->
      Threads (Query zeroRateSpec) <= MaxThreads (Query zeroRateSpec)).
Proof.
  apply (threads_le_max_threads_as_given JSON noMetrics zeroRateRecord zeroRateSpec).
  reflexivity.
Defined.

(** C7, as stated, fails: five threads with [max_threads] left out
    resolve to threads 5 above max_threads 2. *)
Lemma threads_above_max_threads :
  UnmarshalJSON noMetrics (Map fiveThreadsRecord) = Some fiveThreadsSpec
  /\ ~ (Threads (Query fiveThreadsSpec) <= MaxThreads (Query fiveThreadsSpec)).
Proof. split; [reflexivity | simpl; lia]. Qed.

(** ** Running in [M] *)

Lemma bind_run {A B} (m : M A) (f : A -> M B) (t : list event) :
  (m ≫= f) t =
  match m t with
  | (Done a, t') => f a t'
  | (Fatal, t') => (Fatal, t')
  | (Panic, t') => (Panic, t')
  end.
Proof. reflexivity. Qed.

(** A computation only ever appends to the trace; [extends P m] says
    that what it appends satisfies [P]. *)
Definition extends {A} (P : event -> Prop) (m : M A) : Prop :=
  forall t, exists tl, snd (m t) = t ++ tl /\ Forall P tl.

Lemma extends_ret {A} P (a : A) : extends P (mret a).
Proof. intros t. exists []. by rewrite app_nil_r. Qed.

Lemma extends_fatal {A} P : extends P (@fatal A).
Proof. intros t. exists []. by rewrite app_nil_r. Qed.

Lemma extends_panic {A} P : extends P (@panic A).
Proof. intros t. exists []. by rewrite app_nil_r. Qed.

Lemma extends_lift {A} P (r : result A) : extends P (lift r).
Proof. intros t. exists []. by rewrite app_nil_r. Qed.

Lemma extends_emit P e : P e -> extends P (emit e).
Proof. intros H t. exists [e]. split; [done|]. by constructor. Qed.

Lemma extends_bind {A B} P (m : M A) (f : A -> M B) :
  extends P m -> (forall a, extends P (f a)) -> extends P (m ≫= f).
Proof.
  intros Hm Hf t. rewrite bind_run. destruct (Hm t) as (tl & Ht & Htl).
  destruct (m t) as [[a| |] t']; simpl in Ht; subst t'; [|by exists tl..].
  destruct (Hf a (t ++ tl)) as (tl' & -> & Htl').
  exists (tl ++ tl'). split; [by rewrite app_assoc|]. by apply Forall_app.
Qed.

Lemma extends_if {A} P (b : bool) (m1 m2 : M A) :
  extends P m1 -> extends P m2 -> extends P (if b then m1 else m2).
Proof. by destruct b. Qed.

Lemma no_network_app t1 t2 : no_network t1 -> no_network t2 -> no_network (t1 ++ t2).
Proof. unfold no_network. rewrite forallb_app. by intros -> ->. Qed.

Lemma no_network_Forall t : Forall (fun e => is_network e = false) t -> no_network t.
Proof.
  unfold no_network. induction 1 as [|e t He _ IH]; [done|].
  simpl. by rewrite He, IH.
Qed.

(** ** Configuration errors *)

Lemma readAndDecode_quiet {A} W (decode : string -> option A) file :
  extends (fun e => is_network e = false) (readAndDecode W decode file).
Proof.
  unfold readAndDecode. apply extends_bind; [by apply extends_emit|]. intros _.
  destruct (ReadFile W file) as [[bytes|]|];
    [|apply extends_panic|apply extends_fatal].
  destruct (decode bytes); [apply extends_ret|apply extends_panic].
Qed.

Lemma loadEndpoints_quiet W c :
  extends (fun e => is_network e = false) (loadEndpoints W c).
Proof.
  unfold loadEndpoints, parseEndpointsJSON, parseEndpointsYAML, parseJSONString.
  repeat (apply extends_if; [try apply extends_fatal|]);
    try apply readAndDecode_quiet; try apply extends_ret.
  destruct (unmarshalEndpointsJSON _ _); [apply extends_ret|apply extends_panic].
Qed.

Lemma loadSplunkSettings_quiet W c :
  extends (fun e => is_network e = false) (loadSplunkSettings W c).
Proof.
  unfold loadSplunkSettings, parseSplunkSettingsJSON, parseSplunkSettingsYAML.
  repeat (apply extends_if; [|try apply extends_ret]);
    try apply readAndDecode_quiet; try apply extends_ret.
Qed.

Lemma parseDurations_run W l : forall sum t,
  parseDurations W l sum t =
  (match mapM (fun e => ParseDuration W (Duration (Query e))) l with
   | Some ds => Done (sumSeconds ds sum)
   | None => Fatal
   end, t).
Proof.
  induction l as [|e l IH]; intros sum t; [done|]. cbn [parseDurations mapM].
  destruct (ParseDuration W (Duration (Query e))) as [d|]; [|done].
  rewrite IH. simpl. by destruct (mapM _ l).
Qed.

(** A fatal end of the loading stage is the end of [main]. *)
Lemma main_stops_loading W c r t :
  loadEndpoints W c [] = (r, t) -> is_fatal r = true ->
  is_fatal (fst (main W c [])) = true /\ no_network (snd (main W c [])).
Proof.
  intros H Hr. unfold main. rewrite bind_run, H.
  destruct (loadEndpoints_quiet W c []) as (tl & Ht & Htl).
  rewrite H in Ht. simpl in Ht. subst t.
  destruct r; [done|split; [done|by apply no_network_Forall]..].
Qed.

Lemma config_error_loading W c r t :
  config_error W c -> loadEndpoints W c [] = (r, t) -> is_fatal r = true.
Proof.
  destruct c as [file data output print json splunk quiet].
  unfold loadEndpoints. simpl.
  intros [Hf Hd|f d Hf Hd|Ho Hp Hj Hs|f bytes Hf Hx Hr Hu|f bytes Hf Hx Hr Hu|d Hd Hu];
    simpl in *; subst; simpl.
  - by intros [= <- <-].
  - by intros [= <- <-].
  - rewrite Hp, Hj, Hs. simpl. destruct file, data; simpl; by intros [= <- <-].
  - destruct data; simpl; [by intros [= <- <-]|].
    destruct (_ && _); [by intros [= <- <-]|]. rewrite Hx. simpl.
    unfold parseEndpointsJSON, readAndDecode. rewrite bind_run. simpl.
    rewrite Hr, Hu. by intros [= <- <-].
  - destruct data; simpl; [by intros [= <- <-]|].
    destruct (_ && _); [by intros [= <- <-]|].
    assert (String.eqb (Ext f) ".json" = false) as ->.
    { by destruct Hx as [-> | ->]. }
    assert (String.eqb (Ext f) ".yml" || String.eqb (Ext f) ".yaml" = true) as ->.
    { by destruct Hx as [-> | ->]. }
    unfold parseEndpointsYAML, readAndDecode. rewrite bind_run. simpl.
    rewrite Hr, Hu. by intros [= <- <-].
  - destruct file; simpl; [by intros [= <- <-]|].
    destruct (_ && _); [by intros [= <- <-]|].
    unfold parseJSONString. rewrite Hu. by intros [= <- <-].
Qed.

(** C3.  With no input source, with both a file and inline data, with
    no output requested, or with input that does not decode in its
    claimed encoding, the command ends in [log.Fatal] or a panic, and
    nothing has touched the network by then. *)
Theorem config_error_stops_before_network (W : World) (c : cli.Context) :
  config_error W c ->
  is_fatal (fst (main W c [])) = true /\ no_network (snd (main W c [])).
Proof.
  intros H. destruct (loadEndpoints W c []) as [r t] eqn:Hload.
  eapply main_stops_loading; [exact Hload|]. by eapply config_error_loading.
Qed.

(** An instance: a [.json] file that is not JSON. *)
Lemma config_error_broken_file :
  is_fatal (fst (main demoWorld (printFile "broken.json") [])) = true
  /\ no_network (snd (main demoWorld (printFile "broken.json") [])).
Proof.
  apply (config_error_stops_before_network demoWorld (printFile "broken.json")).
  apply (BadJSONFile demoWorld (printFile "broken.json") "broken.json" "not json");
    reflexivity.
Defined.

(** ** Durations are checked before any run *)

Lemma mapM_bad_duration W l :
  Exists (fun e => ParseDuration W (Duration (Query e)) = None) l ->
  mapM (fun e => ParseDuration W (Duration (Query e))) l = None.
Proof.
  induction 1 as [e l He|e l _ IH]; cbn [mapM].
  - by rewrite He.
  - rewrite IH. by destruct (ParseDuration W _).
Qed.

(** C5.  When the endpoint list that was read holds a spec whose
    duration does not parse, the command ends in [log.Fatal] and no
    endpoint, the earlier ones included, has been run. *)
Theorem bad_duration_stops_before_any_run (W : World) (c : cli.Context)
    (l : list endpointDetails) (t : list event) :
  loadEndpoints W c [] = (Done l, t) ->
  Exists (fun e => ParseDuration W (Duration (Query e)) = None) l ->
  is_fatal (fst (main W c [])) = true /\ no_network (snd (main W c [])).
Proof.
  intros Hload Hbad. unfold main. rewrite bind_run, Hload.
  destruct (loadEndpoints_quiet W c []) as (tl & Ht & Htl).
  rewrite Hload in Ht. simpl in Ht. subst t.
  destruct (loadSplunkSettings_quiet W c tl) as (tl' & Ht' & Htl').
  assert (no_network (tl ++ tl')) as Hquiet.
  { apply no_network_app; by apply no_network_Forall. }
  rewrite bind_run.
  destruct (loadSplunkSettings W c tl) as [[s| |] t']; simpl in Ht'; subst t';
    [|done..].
  rewrite bind_run, parseDurations_run, (mapM_bad_duration W l Hbad). done.
Qed.

(** An instance: the second of two endpoints has the duration [soon]. *)
Lemma bad_duration_second_endpoint :
  is_fatal (fst (main demoWorld (printFile "late.json") [])) = true
  /\ no_network (snd (main demoWorld (printFile "late.json") [])).
Proof.
  apply (bad_duration_stops_before_any_run demoWorld (printFile "late.json")
           [zeroRateSpec;
            {| Target := {| Method := "GET"; URL := "http://localhost/b"; Body := "";
                            Header := ∅ |};
               Query := {| Threads := 2; MaxThreads := 2; Connections := 10;
                           Duration := "soon"; RequestRate := 500 |};
               Metrics := vegeta.zero |}]
           [EvOpen "late.json"]).
  - reflexivity.
  - apply Exists_cons_tl, Exists_cons_hd. reflexivity.
Defined.

(** ** Runs in input order *)

Lemma queryFrom_run W l2 : forall l1 t,
  Forall (fun e => is_Some (ParseDuration W (Duration (Query e)))) l2 ->
  queryFrom W (length l2) (length l1) (l1 ++ l2) t =
  (Done (l1 ++ attachMetrics W t l2), t ++ map (attackEvent W) l2).
Proof.
  induction l2 as [|e l2 IH]; intros l1 t Hl.
  - simpl. by rewrite !app_nil_r.
  - inversion Hl as [|? ? [d Hd] Hl']; subst.
    cbn [queryFrom length attachMetrics map].
    rewrite list_lookup_middle by done. rewrite bind_run.
    unfold queryAPI, attackEvent. rewrite Hd. cbn [default from_option id].
    rewrite insert_app_r_alt by done. rewrite Nat.sub_diag. cbn [insert list_insert].
    rewrite (cons_middle _ l1 l2), (app_assoc l1 [_] l2).
    replace (S (length l1)) with (length (l1 ++ [setMetrics (Attack W t (Target e) (Query e) d) e]))
      by (rewrite length_app; simpl; lia).
    rewrite (IH _ _ Hl'). by rewrite <- !app_assoc.
Qed.

Lemma queryEndpoints_run W l t :
  Forall (fun e => is_Some (ParseDuration W (Duration (Query e)))) l ->
  queryEndpoints W l t = (Done (attachMetrics W t l), t ++ map (attackEvent W) l).
Proof. intros Hl. by apply (queryFrom_run W l [] t). Qed.

Lemma attachMetrics_length W l : forall t, length (attachMetrics W t l) = length l.
Proof. induction l as [|e l IH]; intros t; simpl; [done|]. by rewrite IH. Qed.

Lemma attachMetrics_lookup W l : forall t (i : nat) e,
  l !! i = Some e ->
  attachMetrics W t l !! i =
  Some (setMetrics (Attack W (t ++ map (attackEvent W) (take i l)) (Target e) (Query e)
                      (default 0 (ParseDuration W (Duration (Query e))))) e).
Proof.
  induction l as [|e0 l IH]; intros t i e; [done|].
  destruct i as [|i]; simpl.
  - intros [= ->]. by rewrite app_nil_r.
  - intros H. rewrite (IH _ _ _ H). by rewrite <- app_assoc.
Qed.

Lemma sendJsonToSplunk_reports W s l rest :
  (forall e, In e rest -> In e l) ->
  extends (reports_on l) (sendJsonToSplunk W rest s).
Proof.
  induction rest as [|e rest IH]; intros Hin; [apply extends_ret|].
  cbn [sendJsonToSplunk].
  apply extends_bind; [intros t; exists []; by rewrite app_nil_r|]. intros now.
  apply extends_bind; [destruct (Hostname W); [apply extends_ret|apply extends_panic]|].
  intros name.
  apply extends_bind; [apply extends_if; [apply extends_ret|apply extends_panic]|].
  intros _. apply extends_bind.
  - intros t. eexists [_]. split.
    + by destruct (Do W t _).
    + constructor; [|done]. simpl. apply Hin. by left.
  - intros resp. apply extends_bind; [by apply extends_emit|]. intros _.
    apply extends_if; [by apply extends_emit|].
    apply IH. intros e' He'. apply Hin. by right.
Qed.

Lemma createPDF_reports W l output : extends (reports_on l) (createPDF W l output).
Proof.
  unfold createPDF, createGraph.
  repeat (apply extends_bind;
          [apply extends_if; [apply extends_ret|apply extends_fatal]|intros _]).
  apply extends_bind.
  - apply extends_bind; [apply extends_lift|]. intros points.
    apply extends_if; [apply extends_ret|apply extends_panic].
  - intros _. apply extends_if; [by apply extends_emit|apply extends_fatal].
Qed.

Lemma emitReports_reports W c l s : extends (reports_on l) (emitReports W c l s).
Proof.
  unfold emitReports, printText, printJson.
  apply extends_bind; [apply extends_if; [by apply extends_emit|apply extends_ret]|].
  intros _.
  apply extends_bind; [apply extends_if; [apply createPDF_reports|apply extends_ret]|].
  intros _.
  apply extends_bind; [apply extends_if; [by apply extends_emit|apply extends_ret]|].
  intros _.
  apply extends_if; [by apply sendJsonToSplunk_reports|apply extends_ret].
Qed.

Lemma filter_attack_quiet t :
  Forall (fun e => is_network e = false) t -> List.filter is_attack t = [].
Proof.
  induction 1 as [|e t He _ IH]; [done|]. simpl. rewrite IH. by destruct e.
Qed.

Lemma filter_attack_reports l t :
  Forall (reports_on l) t -> List.filter is_attack t = [].
Proof.
  induction 1 as [|e t He _ IH]; [done|]. simpl. rewrite IH. by destruct e.
Qed.

Lemma filter_attack_runs W l : List.filter is_attack (map (attackEvent W) l) = map (attackEvent W) l.
Proof. induction l as [|e l IH]; [done|]. simpl. by rewrite IH. Qed.

(** The command once its input is read and its durations parse. *)
Lemma main_run W c l t s t1 ds :
  loadEndpoints W c [] = (Done l, t) ->
  loadSplunkSettings W c t = (Done s, t1) ->
  mapM (fun e => ParseDuration W (Duration (Query e))) l = Some ds ->
  main W c [] =
  emitReports W c (attachMetrics W (t1 ++ progressEvents c ds) l) s
    ((t1 ++ progressEvents c ds) ++ map (attackEvent W) l).
Proof.
  intros Hload Hsplunk Hds. unfold main.
  rewrite bind_run, Hload, bind_run, Hsplunk, bind_run, parseDurations_run, Hds.
  assert (Forall (fun e => is_Some (ParseDuration W (Duration (Query e)))) l) as Hl.
  { apply mapM_is_Some. by rewrite Hds. }
  rewrite bind_run. unfold progressEvents, progressSeconds, showProgressBar.
  destruct (cli.IsSet (cli.quiet c)); simpl.
  - rewrite bind_run, queryEndpoints_run by done. by rewrite app_nil_r.
  - by rewrite bind_run, queryEndpoints_run by done.
Qed.

(** C4.  Once the list is read and every duration parses, the engine is
    run once per spec, in input order; the run of a spec starts when
    the runs of all specs before it are in the trace and none after,
    and its result is attached to that spec; the list the emitters get
    has the same specs in the same order, each with its metrics, and
    every emitter starts after the last run and shows that list only. *)
Theorem endpoints_probed_in_input_order (W : World) (c : cli.Context)
    (l : list endpointDetails) (t : list event) (s : splunkSettings) (t1 : list event)
    (ds : list Z) :
  loadEndpoints W c [] = (Done l, t) ->
  loadSplunkSettings W c t = (Done s, t1) ->
  mapM (fun e => ParseDuration W (Duration (Query e))) l = Some ds ->
  exists (before : list event) (enriched : list endpointDetails) (after : list event),
    snd (main W c []) = before ++ map (attackEvent W) l ++ after
    /\ List.filter is_attack (snd (main W c [])) = map (attackEvent W) l
    /\ length (List.filter is_attack (snd (main W c []))) = length l
    /\ main W c [] = emitReports W c enriched s (before ++ map (attackEvent W) l)
    /\ Forall (reports_on enriched) after
    /\ length enriched = length l
    /\ forall (i : nat) e, l !! i = Some e ->
         exists e', enriched !! i = Some e'
           /\ Target e' = Target e /\ Query e' = Query e
           /\ Metrics e' =
               Attack W (before ++ map (attackEvent W) (take i l)) (Target e) (Query e)
                 (default 0 (ParseDuration W (Duration (Query e)))).
Proof.
  intros Hload Hsplunk Hds.
  pose proof (main_run W c l t s t1 ds Hload Hsplunk Hds) as Hmain.
  set (before := t1 ++ progressEvents c ds) in *.
  set (enriched := attachMetrics W before l) in *.
  destruct (emitReports_reports W c enriched s (before ++ map (attackEvent W) l))
    as (after & Hafter & Hreports).
  assert (List.filter is_attack before = []) as Hbefore.
  { destruct (loadEndpoints_quiet W c []) as (tl & Ht & Htl).
    rewrite Hload in Ht. simpl in Ht. subst t.
    destruct (loadSplunkSettings_quiet W c tl) as (tl' & Ht' & Htl').
    rewrite Hsplunk in Ht'. simpl in Ht'. subst t1.
    unfold before, progressEvents. rewrite !List.filter_app.
    rewrite !filter_attack_quiet by done.
    by destruct (cli.IsSet (cli.quiet c)). }
  assert (List.filter is_attack (snd (main W c [])) = map (attackEvent W) l) as Hruns.
  { rewrite Hmain, Hafter, !List.filter_app, Hbefore, filter_attack_runs.
    rewrite (filter_attack_reports enriched after Hreports). by rewrite app_nil_r. }
  exists before, enriched, after. repeat split.
  - by rewrite Hmain, Hafter, <- app_assoc.
  - exact Hruns.
  - by rewrite Hruns, length_map.
  - exact Hmain.
  - exact Hreports.
  - apply attachMetrics_length.
  - intros i e Hi. eexists. split; [by apply attachMetrics_lookup|]. done.
Qed.

(** An instance: two endpoints that differ in their URL only. *)
Lemma endpoints_probed_two_endpoints :
  exists (before : list event) (enriched : list endpointDetails) (after : list event),
    snd (main demoWorld (printFile "pair.json") [])
      = before ++ map (attackEvent demoWorld) [zeroRateSpec; secondSpec] ++ after
    /\ List.filter is_attack (snd (main demoWorld (printFile "pair.json") []))
       = map (attackEvent demoWorld) [zeroRateSpec; secondSpec]
    /\ length (List.filter is_attack (snd (main demoWorld (printFile "pair.json") [])))
       = length [zeroRateSpec; secondSpec]
    /\ main demoWorld (printFile "pair.json") []
       = emitReports demoWorld (printFile "pair.json") enriched zeroSettings
           (before ++ map (attackEvent demoWorld) [zeroRateSpec; secondSpec])
    /\ Forall (reports_on enriched) after
    /\ length enriched = length [zeroRateSpec; secondSpec]
    /\ forall (i : nat) e, [zeroRateSpec; secondSpec] !! i = Some e ->
         exists e', enriched !! i = Some e'
           /\ Target e' = Target e /\ Query e' = Query e
           /\ Metrics e' =
               Attack demoWorld
                 (before ++ map (attackEvent demoWorld) (take i [zeroRateSpec; secondSpec]))
                 (Target e) (Query e)
                 (default 0 (ParseDuration demoWorld (Duration (Query e)))).
Proof.
  apply (endpoints_probed_in_input_order demoWorld (printFile "pair.json")
           [zeroRateSpec; secondSpec] [EvOpen "pair.json"] zeroSettings
           [EvOpen "pair.json"] [3000000000; 3000000000]); reflexivity.
Defined.

(** ** A file of another kind *)



(** ** Forwarding *)

Lemma posted_app t1 t2 : posted (t1 ++ t2) = posted t1 ++ posted t2.
Proof. unfold posted. by rewrite flat_map_app. Qed.

(** One round of the forwarding loop whose request gets a response with
    a readable body: whatever the status, the loop goes on. *)
Lemma sendJsonToSplunk_step W s e rest t name resp :
  Hostname W = Some name -> NewRequest W (Url s) = true ->
  Do W t (forwardRequest W s t e) = Some resp -> ReadFailed resp = false ->
  sendJsonToSplunk W (e :: rest) s t =
  sendJsonToSplunk W rest s
    (t ++ [EvPost (forwardRequest W s t e); EvLog (ResponseBody resp)]).
Proof.
  intros Hn Hu Hdo Hr. cbn [sendJsonToSplunk]. unfold forwardRequest in *.
  unfold mbind, M_bind, mret, M_ret, emit. rewrite Hn in *. rewrite Hu.
  simpl in Hdo. cbv beta iota. rewrite Hdo, Hr. by rewrite <- app_assoc.
Qed.

(** A round whose request fails in transport panics. *)
Lemma sendJsonToSplunk_transport W s e rest t name :
  Hostname W = Some name -> NewRequest W (Url s) = true ->
  Do W t (forwardRequest W s t e) = None ->
  sendJsonToSplunk W (e :: rest) s t = (Panic, t ++ [EvPost (forwardRequest W s t e)]).
Proof.
  intros Hn Hu Hdo. cbn [sendJsonToSplunk]. unfold forwardRequest in *.
  unfold mbind, M_bind, mret, M_ret, emit. rewrite Hn in *. rewrite Hu.
  simpl in Hdo. cbv beta iota. by rewrite Hdo.
Qed.

Lemma sendJsonToSplunk_through W s name l1 : forall t,
  Hostname W = Some name -> NewRequest W (Url s) = true ->
  (forall t' req, (length (posted t') < length (posted t) + length l1)%nat ->
     exists resp, Do W t' req = Some resp /\ ReadFailed resp = false) ->
  exists t1,
    posted t1 = posted t ++ l1
    /\ forall l2, sendJsonToSplunk W (l1 ++ l2) s t = sendJsonToSplunk W l2 s t1.
Proof.
  induction l1 as [|e l1 IH]; intros t Hn Hu Hdo.
  - exists t. by rewrite app_nil_r.
  - destruct (Hdo t (forwardRequest W s t e)) as (resp & Hresp & Hread);
      [simpl; lia|].
    destruct (IH (t ++ [EvPost (forwardRequest W s t e); EvLog (ResponseBody resp)])
                Hn Hu) as (t1 & Hposted & Hrun).
    + intros t' req Hlt. apply Hdo. rewrite posted_app, length_app in Hlt.
      simpl in *. lia.
    + exists t1. split.
      * rewrite Hposted, posted_app. simpl. by rewrite <- app_assoc.
      * intros l2. rewrite <- app_comm_cons.
        by rewrite (sendJsonToSplunk_step W s e (l1 ++ l2) t name resp).
Qed.

(** C2, as the code has it.  While every request gets a response whose
    body can be read, whatever its status, forwarding goes through the
    list in order; a request that fails in transport panics, and no
    endpoint after it is forwarded. *)
Theorem forwarding_stops_on_transport_failure (W : World) (s : splunkSettings)
    (name : string) (l1 : list endpointDetails) (t : list event) :
  Hostname W = Some name -> NewRequest W (Url s) = true ->
  (forall t' req, (length (posted t') < length (posted t) + length l1)%nat ->
     exists resp, Do W t' req = Some resp /\ ReadFailed resp = false) ->
  exists t1,
    sendJsonToSplunk W l1 s t = (Done tt, t1)
    /\ posted t1 = posted t ++ l1
    /\ forall e l2,
         Do W t1 (forwardRequest W s t1 e) = None ->
         sendJsonToSplunk W (l1 ++ e :: l2) s t
           = (Panic, t1 ++ [EvPost (forwardRequest W s t1 e)])
         /\ posted (snd (sendJsonToSplunk W (l1 ++ e :: l2) s t)) = posted t ++ l1 ++ [e].
Proof.
  intros Hn Hu Hdo.
  destruct (sendJsonToSplunk_through W s name l1 t Hn Hu Hdo) as (t1 & Hposted & Hrun).
  exists t1. split; [|split; [exact Hposted|]].
  - specialize (Hrun []). by rewrite app_nil_r in Hrun.
  - intros e l2 Hfail.
    rewrite Hrun, (sendJsonToSplunk_transport W s e l2 t1 name Hn Hu Hfail).
    split; [done|]. simpl. rewrite posted_app, Hposted. simpl.
    by rewrite <- app_assoc.
Qed.

(** An instance: a sink that answers two events with status 503 and is
    then unreachable. *)
Lemma forwarding_stops_when_sink_is_down :
  exists t1,
    sendJsonToSplunk downAfterTwo [zeroRateSpec; secondSpec] demoSettings [] = (Done tt, t1)
    /\ posted t1 = posted [] ++ [zeroRateSpec; secondSpec]
    /\ forall e l2,
         Do downAfterTwo t1 (forwardRequest downAfterTwo demoSettings t1 e) = None ->
         sendJsonToSplunk downAfterTwo ([zeroRateSpec; secondSpec] ++ e :: l2) demoSettings []
           = (Panic, t1 ++ [EvPost (forwardRequest downAfterTwo demoSettings t1 e)])
         /\ posted (snd (sendJsonToSplunk downAfterTwo
                           ([zeroRateSpec; secondSpec] ++ e :: l2) demoSettings []))
            = posted [] ++ [zeroRateSpec; secondSpec] ++ [e].
Proof.
  apply (forwarding_stops_on_transport_failure downAfterTwo demoSettings "localhost"
           [zeroRateSpec; secondSpec] []); [reflexivity..|].
  intros t' req Hlt. simpl in *.
  destruct (Nat.ltb_spec (length (posted t')) 2); [eauto|lia].
Defined.

(** C2, as stated, fails: the sink answers the second of three events
    with status 500, and the third event is sent all the same. *)
Lemma non_2xx_does_not_stop_forwarding :
  exists t1 req2 t2,
    sendJsonToSplunk demoWorld [zeroRateSpec; secondSpec; thirdSpec] demoSettings []
      = (Done tt, t1 ++ EvPost req2 :: t2)
    /\ Event (Payload req2) = secondSpec
    /\ StatusCode <$> Do demoWorld t1 req2 = Some 500
    /\ In thirdSpec (posted t2).
Proof.
  set (r1 := forwardRequest demoWorld demoSettings [] zeroRateSpec).
  set (t1 := [EvPost r1; EvLog "reply"]).
  set (r2 := forwardRequest demoWorld demoSettings t1 secondSpec).
  set (r3 := forwardRequest demoWorld demoSettings
               (t1 ++ [EvPost r2; EvLog "reply"]) thirdSpec).
  exists t1, r2, [EvLog "reply"; EvPost r3; EvLog "reply"].
  repeat split; [reflexivity..|]. simpl. by left.
Qed.

(** ** The rows of the percentile graph *)


(** ** The reporter's text stays in bounds *)

Lemma Split_nonempty s sep : Split s sep <> [].
Proof.
  destruct s as [|c s]; simpl; [done|].
  destruct (Ascii.eqb c sep); [done|]. by destruct (Split s sep).
Qed.

Lemma last_tail_nonempty {A} (x : A) (l : list A) : l <> [] -> last (x :: l) = last l.
Proof. by destruct l. Qed.

(** After a line and its newline, the last piece of the split is the
    last piece of what follows. *)
Lemma Split_line l : forall r,
  exists h t, Split (l +:+ String "010" r) "010" = h :: t
              /\ t <> [] /\ last t = last (Split r "010").
Proof.
  induction l as [|c l IH]; intros r.
  - exists ""%string, (Split r "010"). repeat split. apply Split_nonempty.
  - destruct (IH r) as (h & t & Hs & Hne & Hlast).
    change (String c l +:+ String "010" r) with (String c (l +:+ String "010" r)).
    cbn [Split]. rewrite Hs. destruct (Ascii.eqb c "010").
    + exists ""%string, (h :: t). repeat split; [done|]. by rewrite last_tail_nonempty.
    + by exists (String c h), t.
Qed.

Lemma Split_writeLines lines : last (Split (writeLines lines) "010") = Some ""%string.
Proof.
  induction lines as [|l lines IH]; [done|]. cbn [writeLines].
  destruct (Split_line l (writeLines lines)) as (h & t & -> & Hne & Hlast).
  by rewrite last_tail_nonempty, Hlast.
Qed.

Lemma plotRows_in_bounds W rows : forall j points,
  (forall (k : nat) row, rows !! k = Some row -> length (Fields row) = 4%nat ->
     (j + k < length points)%nat) ->
  plotRows W rows j points <> Panic.
Proof.
  induction rows as [|row rows IH]; intros j points Hok; [done|].
  cbn [plotRows]. destruct (length (Fields row) =? 4)%nat eqn:H4.
  - apply Nat.eqb_eq in H4. pose proof (Hok 0%nat row eq_refl H4) as Hj.
    rewrite Nat.add_0_r in Hj.
    destruct (lookup_lt_is_Some_2 points j Hj) as [p Hp].
    destruct (ParseFloat W (nth 3 _ _)); [|done].
    destruct (ParseFloat W (nth 0 _ _)); [|done].
    rewrite Hp. apply IH. intros k r Hk Hr. rewrite length_insert.
    pose proof (Hok (S k) r Hk Hr). lia.
  - apply IH. intros k r Hk Hr. pose proof (Hok (S k) r Hk Hr). lia.
Qed.

(** C10.  In the text the reporter writes (a header line and the row
    lines, each ended by a newline), the piece after the last newline
    is empty and has no fields; so every row with exactly four fields
    has an index below the allocated length, the number of rows after
    the header minus one, and no write is out of range. *)
Theorem reporter_rows_stay_in_bounds (W : World) (header : string) (lines : list string) :
  last (tail (Split (writeLines (header :: lines)) "010")) = Some ""%string
  /\ length (Fields "") <> 4%nat
  /\ (forall (j : nat) row,
        tail (Split (writeLines (header :: lines)) "010") !! j = Some row ->
        length (Fields row) = 4%nat ->
        (j < length (tail (Split (writeLines (header :: lines)) "010")) - 1)%nat)
  /\ plotPoints W (writeLines (header :: lines)) <> Panic
  /\ forall m, plotPoints W (Report W m) <> Panic.
Proof.
  assert (forall header lines,
    last (tail (Split (writeLines (header :: lines)) "010")) = Some ""%string) as Hlast.
  { intros h ls. cbn [writeLines].
    destruct (Split_line h (writeLines ls)) as (h0 & t & -> & Hne & Hl).
    simpl. by rewrite Hl, Split_writeLines. }
  assert (forall header lines (j : nat) row,
    tail (Split (writeLines (header :: lines)) "010") !! j = Some row ->
    length (Fields row) = 4%nat ->
    (j < length (tail (Split (writeLines (header :: lines)) "010")) - 1)%nat) as Hin.
  { intros h ls j row Hj H4. specialize (Hlast h ls).
    rewrite last_lookup in Hlast. pose proof (lookup_lt_Some _ _ _ Hj) as Hlt.
    destruct (decide (j = pred (length (tail (Split (writeLines (h :: ls)) "010")))))
      as [->|Hne]; [|lia].
    rewrite Hlast in Hj. by injection Hj as <-. }
  assert (forall header lines, plotPoints W (writeLines (header :: lines)) <> Panic) as Hpanic.
  { intros h ls. unfold plotPoints. specialize (Hlast h ls).
    destruct (tail (Split (writeLines (h :: ls)) "010")) as [|r rs] eqn:Hrows; [done|].
    rewrite <- Hrows. apply plotRows_in_bounds. intros k row Hk H4.
    rewrite length_replicate. simpl. by apply (Hin h ls k row). }
  repeat split; [apply Hlast|done|apply Hin|apply Hpanic|].
  intros m. apply Hpanic.
Qed.

(** An instance: the sample world's histogram. *)
Lemma reporter_rows_of_demo_world :
  last (tail (Split (writeLines (HDRHeader demoWorld vegeta.zero
                                   :: HDRRows demoWorld vegeta.zero)) "010"))
    = Some ""%string
  /\ length (Fields "") <> 4%nat
  /\ (forall (j : nat) row,
        tail (Split (writeLines (HDRHeader demoWorld vegeta.zero
                                   :: HDRRows demoWorld vegeta.zero)) "010") !! j = Some row ->
        length (Fields row) = 4%nat ->
        (j < length (tail (Split (writeLines (HDRHeader demoWorld vegeta.zero
                                     :: HDRRows demoWorld vegeta.zero)) "010")) - 1)%nat)
  /\ plotPoints demoWorld (writeLines (HDRHeader demoWorld vegeta.zero
                                         :: HDRRows demoWorld vegeta.zero)) <> Panic
  /\ forall m, plotPoints demoWorld (Report demoWorld m) <> Panic.
Proof.
  apply (reporter_rows_stay_in_bounds demoWorld (HDRHeader demoWorld vegeta.zero)
           (HDRRows demoWorld vegeta.zero)).
Defined.

(** ** The Y axis *)

Lemma float64_of_int_exact i : Z.abs i < 2 ^ 53 -> float64_of_int i = i.
Proof. intros H. unfold float64_of_int. by apply Z.ltb_lt in H as ->. Qed.

(** From 2^53 on the conversion rounds, but never below 2^53. *)
Lemma float64_of_int_large i : 2 ^ 53 <= i -> 2 ^ 53 <= float64_of_int i.
Proof.
  intros H. unfold float64_of_int.
  assert (0 < i) as Hpos by lia.
  rewrite (Z.abs_eq i) by lia. rewrite (Z.sgn_pos i) by lia.
  destruct (Z.ltb_spec i (2 ^ 53)) as [|_]; [lia|].
  assert (53 <= Z.log2 i) as Hlog.
  { change 53 with (Z.log2 (2 ^ 53)). by apply Z.log2_le_mono. }
  set (e := Z.log2 i - 52).
  assert (2 ^ Z.log2 i <= i) as Hlow by (apply Z.log2_spec; lia).
  assert (2 ^ Z.log2 i = 2 ^ 52 * 2 ^ e) as Hsplit.
  { rewrite <- Z.pow_add_r by (unfold e; lia). f_equal. unfold e. lia. }
  assert (0 < 2 ^ e) as He by (apply Z.pow_pos_nonneg; unfold e; lia).
  assert (2 ^ 52 <= i / 2 ^ e) as Hq.
  { apply Z.div_le_lower_bound; [done|]. lia. }
  assert (2 ^ 53 <= 2 ^ 52 * 2 ^ e) as Hbig.
  { rewrite <- Hsplit. apply Z.pow_le_mono_r; lia. }
  set (q := i / 2 ^ e) in *.
  assert (forall q', q <= q' -> 2 ^ 53 <= 1 * (q' * 2 ^ e)) as Hfin.
  { intros q' Hq'. nia. }
  repeat case_match; apply Hfin; lia.
Qed.

Lemma loop_test (max : Q) (i : Z) :
  (0 <= max)%Q -> Qfloor max < 2 ^ 53 -> 0 <= i ->
  Qle_bool (inject_Z (float64_of_int i)) max = (i <=? Qfloor max).
Proof.
  intros Hmax Hbound Hi.
  destruct (Z.leb_spec i (Qfloor max)) as [Hle|Hgt].
  - rewrite float64_of_int_exact by lia. apply Qle_bool_iff.
    eapply Qle_trans; [|apply Qfloor_le]. by rewrite <- Zle_Qle.
  - apply not_true_is_false. rewrite Qle_bool_iff. intros Hle.
    apply Qfloor_resp_le in Hle. rewrite Qfloor_Z in Hle.
    destruct (Z.lt_ge_cases i (2 ^ 53)) as [Hsmall|Hlarge].
    + rewrite float64_of_int_exact in Hle by lia. lia.
    + apply float64_of_int_large in Hlarge. lia.
Qed.

Lemma wrap_int_small z : - 2 ^ 63 <= z < 2 ^ 63 -> wrap_int z = z.
Proof. intros H. unfold wrap_int. rewrite Z.mod_small; lia. Qed.

(** The tick the loop appends at [i]. *)
Lemma ticksLoop_run (max : Q) (r : nat) : forall (i : Z) (ticks : list Tick) (fuel : nat),
  (0 <= max)%Q -> Qfloor max < 2 ^ 53 -> 0 <= i ->
  Qfloor max < i + 50 * Z.of_nat r ->
  (forall k : nat, (k < r)%nat -> i + 50 * Z.of_nat k <= Qfloor max) ->
  (r < fuel)%nat ->
  ticksLoop fuel max i ticks =
  Some (ticks ++ map (fun k : nat =>
                        {| Value := inject_Z (i + 50 * Z.of_nat k);
                           Label := Itoa (i + 50 * Z.of_nat k) +:+ "ms" |})
                  (seq 0 r)).
Proof.
  induction r as [|r IH]; intros i ticks fuel Hmax Hbound Hi Hend Hin Hfuel;
    (destruct fuel as [|fuel]; [lia|]); cbn [ticksLoop]; rewrite loop_test by done.
  - destruct (Z.leb_spec i (Qfloor max)); [lia|]. simpl. by rewrite app_nil_r.
  - pose proof (Hin 0%nat ltac:(lia)) as H0. rewrite Z.mul_0_r, Z.add_0_r in H0.
    destruct (Z.leb_spec i (Qfloor max)); [|lia].
    rewrite wrap_int_small by lia. rewrite float64_of_int_exact by lia.
    rewrite (IH (i + 50)); [|done|done|lia|lia| |lia].
    + rewrite <- app_assoc. do 2 f_equal. cbn [seq map app]. f_equal.
      * simpl. by rewrite Z.add_0_r.
      * rewrite <- seq_shift, map_map. apply map_ext. intros k.
        by replace (i + 50 + 50 * Z.of_nat k) with (i + 50 * Z.of_nat (S k)) by lia.
    + intros k Hk. pose proof (Hin (S k) ltac:(lia)). lia.
Qed.

(** C8, as the code has it.  For a maximum from 0 up to 2^53, the range
    in which [float64] holds every integer, the loop ends, and the
    ticks are those at 0, 50, 100, ... up to the maximum, each labelled
    with its value and [ms], followed by the tick at 30 for the
    real-time threshold. *)
Theorem ticks_every_50_and_at_30 (min max : Q) :
  (0 <= max)%Q -> (max < inject_Z (2 ^ 53))%Q ->
  exists fuel : nat, forall fuel' : nat, (fuel <= fuel')%nat ->
    Ticks fuel' min max =
    Some (map (fun k : nat =>
                 {| Value := inject_Z (50 * Z.of_nat k);
                    Label := Itoa (50 * Z.of_nat k) +:+ "ms" |})
            (seq 0 (Z.to_nat (Qfloor max / 50) + 1))
          ++ [{| Value := inject_Z 30; Label := "Real-Time -- 30ms" |}]).
Proof.
  intros Hmax Hlt.
  assert (0 <= Qfloor max) as Hfloor.
  { rewrite <- (Qfloor_Z 0). by apply Qfloor_resp_le. }
  assert (Qfloor max < 2 ^ 53) as Hbound.
  { apply Z.lt_nge. intros Hge. apply (Qlt_not_le _ _ Hlt).
    eapply Qle_trans; [|apply Qfloor_le]. by rewrite <- Zle_Qle. }
  set (N := Qfloor max) in *.
  pose proof (Z.div_mod N 50 ltac:(lia)) as Hdiv.
  pose proof (Z.mod_pos_bound N 50 ltac:(lia)) as Hmod.
  assert (0 <= N / 50) as Hq by (apply Z.div_pos; lia).
  exists (S (Z.to_nat (N / 50) + 1)). intros fuel' Hfuel. unfold Ticks.
  rewrite (ticksLoop_run max (Z.to_nat (N / 50) + 1) 0 [] fuel');
    [|done|done|lia|fold N; lia| |lia].
  - reflexivity.
  - intros k Hk. fold N. lia.
Qed.

(** An instance: a maximum of 120 ms gives ticks at 0, 50, 100 and 30. *)
Lemma ticks_up_to_120 :
  exists fuel : nat, forall fuel' : nat, (fuel <= fuel')%nat ->
    Ticks fuel' 0 (120 # 1) =
    Some (map (fun k : nat =>
                 {| Value := inject_Z (50 * Z.of_nat k);
                    Label := Itoa (50 * Z.of_nat k) +:+ "ms" |})
            (seq 0 (Z.to_nat (Qfloor (120 # 1) / 50) + 1))
          ++ [{| Value := inject_Z 30; Label := "Real-Time -- 30ms" |}]).
Proof.
  apply (ticks_every_50_and_at_30 0 (120 # 1)).
  - unfold Qle. simpl. lia.
  - unfold Qlt. simpl. lia.
Defined.

(** Whatever the conversion rounds to, it stays within 2^63 for a
    64-bit [int]. *)
Lemma float64_of_int_bound i : - 2 ^ 63 <= i < 2 ^ 63 -> float64_of_int i <= 2 ^ 63.
Proof.
  intros Hi. unfold float64_of_int.
  destruct (Z.ltb_spec (Z.abs i) (2 ^ 53)) as [|Hbig]; [lia|].
  destruct (Z.le_gt_cases i 0) as [Hle|Hpos].
  - set (e := Z.log2 (Z.abs i) - 52).
    assert (53 <= Z.log2 (Z.abs i)) as Hlog.
    { change 53 with (Z.log2 (2 ^ 53)). by apply Z.log2_le_mono. }
    assert (0 < 2 ^ e) as He by (apply Z.pow_pos_nonneg; unfold e; lia).
    assert (0 <= Z.abs i / 2 ^ e) as Hq0 by (apply Z.div_pos; lia).
    assert (forall q', 0 <= q' -> Z.sgn i * (q' * 2 ^ e) <= 2 ^ 63) as Hneg.
    { intros q' Hq'. assert (Z.sgn i <= 0) by lia. nia. }
    repeat case_match; apply Hneg; lia.
  - rewrite (Z.sgn_pos i) by lia. rewrite (Z.abs_eq i) in * by lia.
    set (e := Z.log2 i - 52).
    assert (53 <= Z.log2 i) as Hlog.
    { change 53 with (Z.log2 (2 ^ 53)). by apply Z.log2_le_mono. }
    assert (0 < 2 ^ e) as He by (apply Z.pow_pos_nonneg; unfold e; lia).
    assert (Z.log2 i <= 62) as Hlog'.
    { apply Z.lt_succ_r. apply Z.log2_lt_pow2; lia. }
    assert (i < 2 ^ 53 * 2 ^ e) as Hup.
    { rewrite <- Z.pow_add_r by (unfold e; lia).
      replace (53 + e) with (Z.succ (Z.log2 i)) by (unfold e; lia).
      apply Z.log2_spec. lia. }
    assert (i / 2 ^ e < 2 ^ 53) as Hq by (apply Z.div_lt_upper_bound; lia).
    assert (2 ^ 53 * 2 ^ e <= 2 ^ 63) as Htop.
    { rewrite <- Z.pow_add_r by (unfold e; lia). apply Z.pow_le_mono_r; unfold e; lia. }
    set (q := i / 2 ^ e) in *.
    assert (forall q', q' <= q + 1 -> 1 * (q' * 2 ^ e) <= 2 ^ 63) as Hfin.
    { intros q' Hq'. nia. }
    repeat case_match; apply Hfin; lia.
Qed.

Lemma wrap_int_range z : - 2 ^ 63 <= wrap_int z < 2 ^ 63.
Proof.
  unfold wrap_int. pose proof (Z.mod_pos_bound (z + 2 ^ 63) (2 ^ 64) ltac:(lia)). lia.
Qed.

Lemma ticksLoop_never_ends (fuel : nat) : forall i ticks,
  - 2 ^ 63 <= i < 2 ^ 63 -> ticksLoop fuel (inject_Z (2 ^ 63)) i ticks = None.
Proof.
  induction fuel as [|fuel IH]; intros i ticks Hi; [done|].
  cbn [ticksLoop].
  assert (Qle_bool (inject_Z (float64_of_int i)) (inject_Z (2 ^ 63)) = true) as ->.
  { apply Qle_bool_iff. rewrite <- Zle_Qle. by apply float64_of_int_bound. }
  apply IH, wrap_int_range.
Qed.

(** C8, as stated for every maximum, fails: at 2^63 every [int] passes
    the loop test, the counter wraps around, and the loop never ends. *)
Lemma ticks_never_end_at_2_63 :
  ~ exists (fuel : nat) (ticks : list Tick), Ticks fuel 0 (inject_Z (2 ^ 63)) = Some ticks.
Proof.
  intros (fuel & ticks & H). unfold Ticks in H.
  rewrite ticksLoop_never_ends in H by lia. done.
Qed.

(** * Further properties *)

(** ** Forwarding, round by round *)

Lemma sendJsonToSplunk_no_host W s e rest t :
  Hostname W = None -> sendJsonToSplunk W (e :: rest) s t = (Panic, t).
Proof.
  intros Hn. cbn [sendJsonToSplunk]. unfold mbind, M_bind, mret, M_ret, panic.
  by rewrite Hn.
Qed.

Lemma sendJsonToSplunk_no_request W s e rest t :
  NewRequest W (Url s) = false -> sendJsonToSplunk W (e :: rest) s t = (Panic, t).
Proof.
  intros Hu. cbn [sendJsonToSplunk]. unfold mbind, M_bind, mret, M_ret, panic.
  rewrite Hu. by destruct (Hostname W).
Qed.

Lemma sendJsonToSplunk_read_failed W s e rest t name resp :
  Hostname W = Some name -> NewRequest W (Url s) = true ->
  Do W t (forwardRequest W s t e) = Some resp -> ReadFailed resp = true ->
  sendJsonToSplunk W (e :: rest) s t =
  (Done tt, t ++ [EvPost (forwardRequest W s t e); EvLog (ResponseBody resp);
                  EvLog "Reading body failed"]).
Proof.
  intros Hn Hu Hdo Hr. cbn [sendJsonToSplunk]. unfold forwardRequest in *.
  unfold mbind, M_bind, mret, M_ret, emit. rewrite Hn in *. rewrite Hu.
  simpl in Hdo. cbv beta iota. rewrite Hdo, Hr. by rewrite <- !app_assoc.
Qed.

Lemma sendJsonToSplunk_trace (W : World) (s : splunkSettings)
    (l : list endpointDetails) : forall t : list event,
  exists tl,
    snd (sendJsonToSplunk W l s t) = t ++ tl
    /\ posted tl `prefix_of` l
    /\ Forall (forwarded_with W s) tl.
Proof.
  induction l as [|e l IH]; intros t.
  - exists []. simpl. rewrite app_nil_r. split; [done|]. split; [done|constructor].
  - destruct (Hostname W) as [name|] eqn:Hn.
    2: { rewrite sendJsonToSplunk_no_host by done. exists []. simpl.
         rewrite app_nil_r. split; [done|]. split; [apply prefix_nil|constructor]. }
    destruct (NewRequest W (Url s)) eqn:Hu.
    2: { rewrite sendJsonToSplunk_no_request by done. exists []. simpl.
         rewrite app_nil_r. split; [done|]. split; [apply prefix_nil|constructor]. }
    assert (forwarded_with W s (EvPost (forwardRequest W s t e))) as Hreq.
    { simpl. rewrite Hn. by repeat split. }
    destruct (Do W t (forwardRequest W s t e)) as [resp|] eqn:Hdo.
    2: { rewrite (sendJsonToSplunk_transport W s e l t name) by done.
         exists [EvPost (forwardRequest W s t e)].
         split; [done|]. split; [|repeat (apply List.Forall_cons; [first [exact Hreq|exact I]|]); try apply List.Forall_nil].
         simpl. apply prefix_cons, prefix_nil. }
    destruct (ReadFailed resp) eqn:Hr.
    + rewrite (sendJsonToSplunk_read_failed W s e l t name resp) by done.
      exists [EvPost (forwardRequest W s t e); EvLog (ResponseBody resp);
              EvLog "Reading body failed"].
      split; [done|]. split; [|repeat (apply List.Forall_cons; [first [exact Hreq|exact I]|]); try apply List.Forall_nil].
      simpl. apply prefix_cons, prefix_nil.
    + rewrite (sendJsonToSplunk_step W s e l t name resp) by done.
      destruct (IH (t ++ [EvPost (forwardRequest W s t e); EvLog (ResponseBody resp)]))
        as (tl & -> & Hpre & Hall).
      exists ([EvPost (forwardRequest W s t e); EvLog (ResponseBody resp)] ++ tl).
      split; [by rewrite app_assoc|]. split.
      * simpl. by apply prefix_cons.
      * repeat (apply List.Forall_cons; [first [exact Hreq|exact I]|]); try apply List.Forall_nil. exact Hall.
Qed.

(** X1.  Whatever the sink does, forwarding sends the events of an
    initial part of the list, in list order and each once, and every
    request goes to the configured URL with the configured key, content
    type [application/json], the configured source and the local host
    name. *)
Theorem forwarding_sends_an_initial_part (W : World) (s : splunkSettings)
    (l : list endpointDetails) (t : list event) :
  exists tl,
    snd (sendJsonToSplunk W l s t) = t ++ tl
    /\ posted tl `prefix_of` l
    /\ Forall (forwarded_with W s) tl.
Proof. apply sendJsonToSplunk_trace. Qed.

(** X2.  A reply whose body cannot be read ends forwarding without
    ending the program: the body read so far and the failure are
    logged, the function returns, and no endpoint after that one is
    forwarded. *)
Theorem unreadable_reply_ends_forwarding (W : World) (s : splunkSettings)
    (name : string) (l1 : list endpointDetails) (e : endpointDetails)
    (l2 : list endpointDetails) (t : list event) :
  Hostname W = Some name -> NewRequest W (Url s) = true ->
  (forall t' req, (length (posted t') < length (posted t) + length l1)%nat ->
     exists resp, Do W t' req = Some resp /\ ReadFailed resp = false) ->
  (forall t' req, length (posted t') = (length (posted t) + length l1)%nat ->
     exists resp, Do W t' req = Some resp /\ ReadFailed resp = true) ->
  exists t1 resp,
    sendJsonToSplunk W (l1 ++ e :: l2) s t
      = (Done tt, t1 ++ [EvPost (forwardRequest W s t1 e); EvLog (ResponseBody resp);
                         EvLog "Reading body failed"])
    /\ posted (snd (sendJsonToSplunk W (l1 ++ e :: l2) s t)) = posted t ++ l1 ++ [e].
Proof.
  intros Hn Hu Hok Hbad.
  destruct (sendJsonToSplunk_through W s name l1 t Hn Hu Hok) as (t1 & Hposted & Hrun).
  destruct (Hbad t1 (forwardRequest W s t1 e)) as (resp & Hdo & Hr).
  { by rewrite Hposted, length_app. }
  exists t1, resp.
  rewrite Hrun, (sendJsonToSplunk_read_failed W s e l2 t1 name resp Hn Hu Hdo Hr).
  split; [done|]. simpl. rewrite posted_app, Hposted. simpl.
  by rewrite <- app_assoc.
Qed.

(** An instance: the second of three replies breaks off. *)
Lemma unreadable_second_reply :
  exists t1 resp,
    sendJsonToSplunk brokenReply ([zeroRateSpec] ++ secondSpec :: [thirdSpec]) demoSettings []
      = (Done tt, t1 ++ [EvPost (forwardRequest brokenReply demoSettings t1 secondSpec);
                         EvLog (ResponseBody resp); EvLog "Reading body failed"])
    /\ posted (snd (sendJsonToSplunk brokenReply
                      ([zeroRateSpec] ++ secondSpec :: [thirdSpec]) demoSettings []))
       = posted [] ++ [zeroRateSpec] ++ [secondSpec].
Proof.
  apply (unreadable_reply_ends_forwarding brokenReply demoSettings "localhost"
           [zeroRateSpec] secondSpec [thirdSpec] []); [reflexivity..| |].
  - intros t' req Hlt. simpl in *. eexists. split; [reflexivity|]. simpl.
    apply Nat.eqb_neq. lia.
  - intros t' req Heq. simpl in *. eexists. split; [reflexivity|]. simpl.
    by apply Nat.eqb_eq.
Defined.

(** X3.  When the host name cannot be told or the request cannot be
    built from the configured URL, forwarding a list that is not empty
    panics before anything is sent. *)
Theorem forwarding_panics_before_sending (W : World) (s : splunkSettings)
    (l : list endpointDetails) (t : list event) :
  Hostname W = None \/ NewRequest W (Url s) = false ->
  l <> [] ->
  sendJsonToSplunk W l s t = (Panic, t).
Proof.
  intros Hbad Hl. destruct l as [|e l]; [done|].
  destruct Hbad; [by apply sendJsonToSplunk_no_host|by apply sendJsonToSplunk_no_request].
Qed.

(** An instance: no host name. *)
Lemma forwarding_without_host_name :
  sendJsonToSplunk noHostName [zeroRateSpec; secondSpec] demoSettings [] = (Panic, []).
Proof.
  apply (forwarding_panics_before_sending noHostName demoSettings
           [zeroRateSpec; secondSpec] []); [by left|discriminate].
Defined.

(** ** The PDF report *)

Lemma createPDF_done W l output t :
  pdfGoesThrough W l output = true ->
  createPDF W l output t = (Done tt, t ++ [EvPDF l output]).
Proof.
  unfold pdfGoesThrough, createPDF, createGraph.
  unfold mbind, M_bind, mret, M_ret, fatal, panic, lift, emit.
  destruct (BoxFind W "arial.ttf"), (BoxFind W "arial_italic.ttf"),
    (BoxFind W "arial_bold.ttf"), (BoxFind W "nginx_logo.png"); simpl; try done.
  destruct (createGraphPoints W l) as [points| |]; simpl; try done.
  destruct (logScaleFits points && Render W points l); simpl; try done.
  by destruct (OutputFileAndClose W output).
Qed.

Lemma createPDF_stops W l output t :
  pdfGoesThrough W l output = false ->
  is_fatal (fst (createPDF W l output t)) = true /\ snd (createPDF W l output t) = t.
Proof.
  unfold pdfGoesThrough, createPDF, createGraph.
  unfold mbind, M_bind, mret, M_ret, fatal, panic, lift, emit.
  destruct (BoxFind W "arial.ttf"), (BoxFind W "arial_italic.ttf"),
    (BoxFind W "arial_bold.ttf"), (BoxFind W "nginx_logo.png"); simpl; try done.
  destruct (createGraphPoints W l) as [points| |]; simpl; try done.
  destruct (logScaleFits points && Render W points l); simpl; try done.
  by destruct (OutputFileAndClose W output).
Qed.

(** X4.  The PDF report is written exactly when the four packed files
    are found, every endpoint's series is built, the rendering goes
    through (no point at or left of zero on the logarithmic axis among
    the rest) and the output file can be written; it is then written
    once, and in every other case the function ends the program and
    has written nothing. *)
Theorem pdf_written_once_or_not_at_all (W : World) (l : list endpointDetails)
    (output : string) (t : list event) :
  snd (createPDF W l output t)
    = t ++ (if pdfGoesThrough W l output then [EvPDF l output] else [])
  /\ is_fatal (fst (createPDF W l output t)) = negb (pdfGoesThrough W l output).
Proof.
  destruct (pdfGoesThrough W l output) eqn:H.
  - by rewrite createPDF_done.
  - destruct (createPDF_stops W l output t H) as [-> ->]. by rewrite app_nil_r.
Qed.

(** ** The emitters in turn *)

Lemma emitReports_run W c l s t :
  emitReports W c l s t =
  if cli.IsSet (cli.output c) && negb (pdfGoesThrough W l (cli.String (cli.output c)))
  then (fst (createPDF W l (cli.String (cli.output c))
               (t ++ if cli.Bool (cli.print c) then [EvText l] else [])),
        t ++ if cli.Bool (cli.print c) then [EvText l] else [])
  else
    if cli.IsSet (cli.splunk c)
    then sendJsonToSplunk W l s
           (t ++ (if cli.Bool (cli.print c) then [EvText l] else [])
              ++ (if cli.IsSet (cli.output c)
                  then [EvPDF l (cli.String (cli.output c))] else [])
              ++ (if cli.IsSet (cli.json c) then [EvJSON l] else []))
    else (Done tt,
          t ++ (if cli.Bool (cli.print c) then [EvText l] else [])
            ++ (if cli.IsSet (cli.output c)
                then [EvPDF l (cli.String (cli.output c))] else [])
            ++ (if cli.IsSet (cli.json c) then [EvJSON l] else [])).
Proof.
  unfold emitReports, printText, printJson.
  set (a := if cli.Bool (cli.print c) then [EvText l] else []).
  assert (forall k : unit -> M unit,
            ((if cli.Bool (cli.print c) then emit (EvText l) else mret tt) ≫= k) t
            = k tt (t ++ a)) as ->.
  { intros k. rewrite bind_run. unfold a.
    destruct (cli.Bool (cli.print c)); simpl; [done|]. by rewrite app_nil_r. }
  rewrite bind_run.
  destruct (cli.IsSet (cli.output c)); simpl.
  - destruct (pdfGoesThrough W l (cli.String (cli.output c))) eqn:Hpdf; simpl.
    + rewrite createPDF_done by done. rewrite bind_run.
      destruct (cli.IsSet (cli.json c)); simpl.
      * rewrite <- !app_assoc. by destruct (cli.IsSet (cli.splunk c)).
      * rewrite <- !app_assoc. by destruct (cli.IsSet (cli.splunk c)).
    + destruct (createPDF_stops W l (cli.String (cli.output c)) (t ++ a) Hpdf) as [Hr Ht].
      destruct (createPDF W l (cli.String (cli.output c)) (t ++ a)) as [[[]| |] t2];
        simpl in *; by subst.
  - rewrite bind_run.
    destruct (cli.IsSet (cli.json c)); simpl.
    + rewrite <- !app_assoc. by destruct (cli.IsSet (cli.splunk c)).
    + rewrite app_nil_r. by destruct (cli.IsSet (cli.splunk c)).
Qed.

(** X5.  Whatever the flags and the world, the emitters leave their
    marks in one order: the text report, the PDF report, the JSON
    report, each at most once and each showing the list they were
    given, and then the forwarding traffic. *)
Theorem reports_in_fixed_order (W : World) (c : cli.Context) (l : list endpointDetails)
    (s : splunkSettings) (t : list event) :
  exists text pdf js fwd,
    snd (emitReports W c l s t) = t ++ text ++ pdf ++ js ++ fwd
    /\ (text = [] \/ text = [EvText l])
    /\ (pdf = [] \/ pdf = [EvPDF l (cli.String (cli.output c))])
    /\ (js = [] \/ js = [EvJSON l])
    /\ Forall (forwarded_with W s) fwd.
Proof.
  rewrite emitReports_run.
  set (text := if cli.Bool (cli.print c) then [EvText l] else []).
  set (pdf := if cli.IsSet (cli.output c)
              then [EvPDF l (cli.String (cli.output c))] else []).
  set (js := if cli.IsSet (cli.json c) then [EvJSON l] else []).
  assert (text = [] \/ text = [EvText l]) as Htext.
  { unfold text. destruct (cli.Bool (cli.print c)); auto. }
  assert (pdf = [] \/ pdf = [EvPDF l (cli.String (cli.output c))]) as Hpdf.
  { unfold pdf. destruct (cli.IsSet (cli.output c)); auto. }
  assert (js = [] \/ js = [EvJSON l]) as Hjs.
  { unfold js. destruct (cli.IsSet (cli.json c)); auto. }
  destruct (cli.IsSet (cli.output c) && _).
  - exists text, [], [], []. simpl. rewrite app_nil_r.
    repeat split; auto.
  - destruct (cli.IsSet (cli.splunk c)).
    + destruct (sendJsonToSplunk_trace W s l (t ++ text ++ pdf ++ js))
        as (fwd & -> & _ & Hfwd).
      exists text, pdf, js, fwd. rewrite <- !app_assoc. repeat split; auto.
    + exists text, pdf, js, []. simpl. rewrite app_nil_r. repeat split; auto.
Qed.

(** X6.  When the PDF report is requested and cannot be produced, the
    program ends there: the text report, if requested, has been
    printed, and neither the JSON report nor any forwarding follows. *)
Theorem failed_pdf_stops_the_later_reports (W : World) (c : cli.Context)
    (l : list endpointDetails) (s : splunkSettings) (t : list event) :
  cli.IsSet (cli.output c) = true ->
  pdfGoesThrough W l (cli.String (cli.output c)) = false ->
  is_fatal (fst (emitReports W c l s t)) = true
  /\ snd (emitReports W c l s t)
     = t ++ (if cli.Bool (cli.print c) then [EvText l] else []).
Proof.
  intros Ho Hpdf. rewrite emitReports_run, Ho, Hpdf. simpl. split; [|done].
  by apply createPDF_stops.
Qed.

(** An instance: all reports requested, the fonts missing. *)
Lemma failed_pdf_without_fonts :
  is_fatal (fst (emitReports (withoutFonts demoWorld) allReports [zeroRateSpec]
                   zeroSettings [])) = true
  /\ snd (emitReports (withoutFonts demoWorld) allReports [zeroRateSpec] zeroSettings [])
     = [] ++ (if cli.Bool (cli.print allReports) then [EvText [zeroRateSpec]] else []).
Proof.
  apply (failed_pdf_stops_the_later_reports (withoutFonts demoWorld) allReports
           [zeroRateSpec] zeroSettings []); reflexivity.
Defined.

(** ** The command, stage by stage *)

Lemma main_unfold W c :
  main W c =
  (l ← loadEndpoints W c; s ← loadSplunkSettings W c; runAndReport W c l s).
Proof. reflexivity. Qed.

Lemma readAndDecode_trace {A} W (decode : string -> option A) file t :
  snd (readAndDecode W decode file t) = t ++ [EvOpen file].
Proof.
  unfold readAndDecode. rewrite bind_run. simpl.
  destruct (ReadFile W file) as [[bytes|]|]; [|done..].
  by destruct (decode bytes).
Qed.

Lemma loadEndpoints_opens W c t :
  snd (loadEndpoints W c t) = t
  \/ exists file, cli.file c = Some file /\ snd (loadEndpoints W c t) = t ++ [EvOpen file].
Proof.
  unfold loadEndpoints, parseEndpointsJSON, parseEndpointsYAML, parseJSONString.
  destruct (cli.file c) as [file|]; simpl.
  - destruct (cli.IsSet (cli.data c)); simpl; [by left|].
    destruct (_ && _); [by left|].
    destruct (String.eqb (Ext file) ".json");
      [right; exists file; by rewrite readAndDecode_trace|].
    destruct (_ || _); [right; exists file; by rewrite readAndDecode_trace|by left].
  - destruct (cli.IsSet (cli.data c)); simpl; [|by left].
    destruct (_ && _); [by left|].
    left. by destruct (unmarshalEndpointsJSON W _).
Qed.

Lemma loadSplunkSettings_opens W c t :
  snd (loadSplunkSettings W c t) = t
  \/ exists file, cli.splunk c = Some file
                  /\ snd (loadSplunkSettings W c t) = t ++ [EvOpen file].
Proof.
  unfold loadSplunkSettings, parseSplunkSettingsJSON, parseSplunkSettingsYAML.
  destruct (cli.splunk c) as [file|]; simpl; [|by left].
  destruct (String.eqb (Ext file) ".json");
    [right; exists file; by rewrite readAndDecode_trace|].
  destruct (_ || _); [right; exists file; by rewrite readAndDecode_trace|by left].
Qed.

Lemma parseDurations_extends P W l sum : extends P (parseDurations W l sum).
Proof.
  intros t. exists []. rewrite parseDurations_run, app_nil_r. by split.
Qed.

Lemma queryFrom_extends (P : event -> Prop) W todo : forall i l,
  (forall tg q d, P (EvAttack tg q d)) -> extends P (queryFrom W todo i l).
Proof.
  induction todo as [|todo IH]; intros i l HP; [apply extends_ret|].
  cbn [queryFrom]. destruct (l !! i) as [e|]; [|apply extends_ret].
  apply extends_bind; [|intros m; by apply IH].
  unfold queryAPI. destruct (ParseDuration W _); [|apply extends_fatal].
  intros t. eexists [_]. split; [done|]. by constructor.
Qed.

Lemma forwarded_with_after_loading W s c ev :
  cli.IsSet (cli.splunk c) = true -> forwarded_with W s ev -> after_loading c ev.
Proof. intros Hs. by destruct ev. Qed.

Lemma emitReports_requested W c l s : extends (after_loading c) (emitReports W c l s).
Proof.
  intros t. rewrite emitReports_run.
  assert (Forall (after_loading c) (if cli.Bool (cli.print c) then [EvText l] else []))
    as Htext.
  { destruct (cli.Bool (cli.print c)) eqn:Hp; by repeat constructor. }
  assert (Forall (after_loading c)
            (if cli.IsSet (cli.output c) then [EvPDF l (cli.String (cli.output c))] else []))
    as Hpdf.
  { destruct (cli.output c) as [o|] eqn:Ho; simpl; [|done].
    repeat constructor. simpl. by rewrite Ho. }
  assert (Forall (after_loading c) (if cli.IsSet (cli.json c) then [EvJSON l] else []))
    as Hjs.
  { destruct (cli.IsSet (cli.json c)) eqn:Hj; by repeat constructor. }
  destruct (cli.IsSet (cli.output c) && _); [by eexists|].
  destruct (cli.IsSet (cli.splunk c)) eqn:Hs.
  - destruct (sendJsonToSplunk_trace W s l
                (t ++ (if cli.Bool (cli.print c) then [EvText l] else [])
                   ++ (if cli.IsSet (cli.output c)
                       then [EvPDF l (cli.String (cli.output c))] else [])
                   ++ (if cli.IsSet (cli.json c) then [EvJSON l] else [])))
      as (fwd & -> & _ & Hfwd).
    eexists. rewrite <- !app_assoc. split; [done|].
    repeat (apply Forall_app; split; [done|]).
    eapply Forall_impl; [exact Hfwd|]. intros ev. by apply forwarded_with_after_loading.
  - eexists. split; [done|]. by repeat (apply Forall_app; split; [done|]).
Qed.

Lemma runAndReport_requested W c l s : extends (after_loading c) (runAndReport W c l s).
Proof.
  unfold runAndReport.
  apply extends_bind; [apply parseDurations_extends|]. intros sum.
  apply extends_bind.
  { destruct (cli.quiet c) eqn:Hq; simpl; [apply extends_ret|].
    apply extends_emit. split; [done|]. simpl. exact Hq. }
  intros _. apply extends_bind; [by apply queryFrom_extends|]. intros l'.
  apply emitReports_requested.
Qed.

(** The trace of the command: the configuration files and then the
    rest. *)
Lemma main_trace W c :
  exists opens rest,
    snd (main W c []) = opens ++ rest
    /\ Forall (fun ev => is_open ev = true /\ requested c ev) opens
    /\ (length opens <= 2)%nat
    /\ Forall (after_loading c) rest.
Proof.
  rewrite main_unfold, bind_run.
  assert (exists o1, snd (loadEndpoints W c []) = o1
            /\ Forall (fun ev => is_open ev = true /\ requested c ev) o1
            /\ (length o1 <= 1)%nat) as (o1 & H1 & Ho1 & Hl1).
  { destruct (loadEndpoints_opens W c []) as [->|(f & Hf & ->)].
    - exists []. split; [done|]. split; [constructor|simpl; lia].
    - exists [EvOpen f]. split; [done|]. split; [|simpl; lia].
      constructor; [|constructor]. split; [done|]. by left. }
  destruct (loadEndpoints W c []) as [[l| |] t1]; simpl in H1; subst t1;
    [|exists o1, []; rewrite app_nil_r; split; [done|]; split; [done|];
      split; [lia|constructor]..].
  rewrite bind_run.
  assert (exists o2, snd (loadSplunkSettings W c o1) = o1 ++ o2
            /\ Forall (fun ev => is_open ev = true /\ requested c ev) o2
            /\ (length o2 <= 1)%nat) as (o2 & H2 & Ho2 & Hl2).
  { destruct (loadSplunkSettings_opens W c o1) as [->|(f & Hf & ->)].
    - exists []. rewrite app_nil_r. split; [done|]. split; [constructor|simpl; lia].
    - exists [EvOpen f]. split; [done|]. split; [|simpl; lia].
      constructor; [|constructor]. split; [done|]. by right. }
  assert (Forall (fun ev => is_open ev = true /\ requested c ev) (o1 ++ o2)) as Ho
    by (by apply Forall_app).
  assert (length (o1 ++ o2) <= 2)%nat as Hlen by (rewrite length_app; lia).
  destruct (loadSplunkSettings W c o1) as [[s| |] t2]; simpl in H2; subst t2;
    [|exists (o1 ++ o2), []; rewrite app_nil_r; split; [done|]; split; [done|];
      split; [done|constructor]..].
  destruct (runAndReport_requested W c l s (o1 ++ o2)) as (rest & -> & Hrest).
  by exists (o1 ++ o2), rest.
Qed.

(** X7.  The command reads its configuration first and never again:
    in its trace the files opened, at most two, come before everything
    else. *)
Theorem configuration_is_read_first (W : World) (c : cli.Context) :
  exists opens rest,
    snd (main W c []) = opens ++ rest
    /\ Forall (fun ev => is_open ev = true) opens
    /\ (length opens <= 2)%nat
    /\ Forall (fun ev => is_open ev = false) rest.
Proof.
  destruct (main_trace W c) as (opens & rest & Ht & Ho & Hl & Hr).
  exists opens, rest. repeat split; [done| |done|].
  - eapply Forall_impl; [exact Ho|]. by intros ev [? _].
  - eapply Forall_impl; [exact Hr|]. by intros ev [? _].
Qed.

(** X8.  The command does nothing it was not asked for: it opens only
    the files named by [--file] and [--splunk], starts the progress bar
    only without [--quiet], prints the text report only with [--print],
    writes the PDF only to the path of [--output], prints JSON only
    with [--json], and forwards only with [--splunk]. *)
Theorem only_what_was_requested (W : World) (c : cli.Context) :
  Forall (requested c) (snd (main W c [])).
Proof.
  destruct (main_trace W c) as (opens & rest & -> & Ho & _ & Hr).
  apply Forall_app. split.
  - eapply Forall_impl; [exact Ho|]. by intros ev [_ ?].
  - eapply Forall_impl; [exact Hr|]. by intros ev [_ ?].
Qed.

Lemma reports_on_after_runs l ev :
  reports_on l ev ->
  match ev with EvOpen _ | EvProgress _ | EvAttack _ _ _ => False | _ => True end.
Proof. by destruct ev. Qed.

(** Rounding leaves an integer below 2^53 as it is. *)
Lemma float64_of_Q_exact (x : Q) (n : Z) :
  (x == inject_Z n)%Q -> Z.abs n < 2 ^ 53 -> float64_of_Q x = inject_Z n.
Proof.
  intros Hx Hn. unfold float64_of_Q.
  assert (Qred x = inject_Z n) as ->.
  { rewrite (Qred_complete _ _ Hx). apply Qcanon.Qred_identity. simpl. apply Z.gcd_1_r. }
  cbn [Qnum Qden inject_Z].
  destruct (Z.eqb_spec (Z.abs n) 0) as [H0|H0].
  { assert (n = 0) as -> by lia. reflexivity. }
  change (Z.log2 1) with 0.
  set (a := Z.abs n) in *.
  assert (0 < a) as Ha by lia.
  pose proof (Z.log2_spec a Ha) as [Hlo Hhi].
  assert (Z.log2 a <= 52) as Hl.
  { destruct (Z.le_gt_cases (Z.log2 a) 52) as [|Hgt]; [done|].
    assert (2 ^ 53 <= 2 ^ Z.log2 a) by (apply Z.pow_le_mono_r; lia). lia. }
  pose proof (Z.log2_nonneg a) as Hl0.
  replace (Z.log2 a - 0 - 52) with (- (52 - Z.log2 a)) by lia.
  set (k := 52 - Z.log2 a).
  assert (0 <= k) as Hk by lia.
  rewrite Z.opp_involutive.
  rewrite (Z.max_r 0 k) by lia. rewrite (Z.max_l 0 (- k)) by lia.
  change (2 ^ 0) with 1. rewrite !Z.mul_1_r.
  assert (2 ^ 52 <= a * 2 ^ k) as Hge.
  { replace (2 ^ 52) with (2 ^ Z.log2 a * 2 ^ k)
      by (rewrite <- Z.pow_add_r by lia; f_equal; lia).
    apply Z.mul_le_mono_nonneg_r; [apply Z.pow_nonneg; lia|done]. }
  destruct (Z.ltb_spec (a * 2 ^ k) (2 ^ 52)) as [Hlt|_]; [lia|].
  rewrite Z.opp_involutive.
  rewrite (Z.max_r 0 k) by lia. rewrite (Z.max_l 0 (- k)) by lia.
  change (2 ^ 0) with 1. rewrite !Z.mul_1_r.
  unfold round_even. rewrite Z.div_1_r, Z.mod_1_r.
  assert (0 < 2 ^ k) as Hp by (apply Z.pow_pos_nonneg; lia).
  rewrite (Qred_complete _ (inject_Z n)).
  - apply Qcanon.Qred_identity. simpl. apply Z.gcd_1_r.
  - unfold Qeq, inject_Z. cbn [Qnum Qden]. rewrite Z2Pos.id by done.
    change (2 * 0 <? 1) with true. cbv iota.
    unfold a. by rewrite Z.mul_1_r, Z.mul_assoc, (Z.mul_comm (Z.sgn n)), Z.abs_sgn.
Qed.

(** A duration of whole seconds has exactly that many seconds. *)
Lemma Seconds_whole (d : Z) :
  0 <= d -> d mod Second = 0 -> d / Second < 2 ^ 53 ->
  Seconds d = inject_Z (d / Second).
Proof.
  intros Hd Hm Hlt. unfold Seconds.
  assert (0 < Second) as Hs by done.
  rewrite Z.quot_div_nonneg, Z.rem_mod_nonneg, Hm by lia.
  assert (0 <= d / Second) as Hq by (apply Z.div_pos; lia).
  rewrite float64_of_int_exact by lia.
  change (float64_div (inject_Z (float64_of_int 0)) (inject_Z Second)) with 0%Q.
  apply float64_of_Q_exact; [apply Qplus_0_r|lia].
Qed.

Lemma wholeSeconds_cons d ds : wholeSeconds (d :: ds) = d / Second + wholeSeconds ds.
Proof. reflexivity. Qed.

Lemma wholeSeconds_nonneg ds :
  Forall (fun d => 0 <= d /\ d mod Second = 0) ds -> 0 <= wholeSeconds ds.
Proof.
  induction 1 as [|d ds [Hd _] _ IH]; [done|]. rewrite wholeSeconds_cons.
  assert (0 <= d / Second) by (apply Z.div_pos; [lia|done]). lia.
Qed.

Lemma sumSeconds_whole (ds : list Z) : forall n : Z,
  0 <= n ->
  Forall (fun d => 0 <= d /\ d mod Second = 0) ds ->
  n + wholeSeconds ds < 2 ^ 53 ->
  sumSeconds ds (inject_Z n) = inject_Z (n + wholeSeconds ds).
Proof.
  induction ds as [|d ds IH]; intros n Hn Hds Hlt.
  - simpl. by rewrite Z.add_0_r.
  - inversion Hds as [|? ? [Hd Hm] Hds']; subst.
    rewrite wholeSeconds_cons in *.
    assert (0 <= d / Second) as Hq by (apply Z.div_pos; [lia|done]).
    pose proof (wholeSeconds_nonneg ds Hds') as Hrest.
    unfold sumSeconds in *. cbn [fold_left].
    rewrite Seconds_whole by (try done; lia).
    assert (float64_add (inject_Z n) (inject_Z (d / Second)) = inject_Z (n + d / Second))
      as ->.
    { apply float64_of_Q_exact; [by rewrite inject_Z_plus|lia]. }
    rewrite IH by (try done; lia). f_equal. lia.
Qed.

(** X9.  Once the configuration is read and the durations parse, the
    progress bar is started exactly when [--quiet] is absent (given with
    any value, it suppresses the bar), once, after the configuration
    files and before the first run.  It is started for the integer part
    of the sum of the durations' seconds, added up in [float64]; when
    the durations are whole seconds, that is their exact total. *)
Theorem progress_bar_before_first_run (W : World) (c : cli.Context)
    (l : list endpointDetails) (t : list event) (s : splunkSettings) (t1 : list event)
    (ds : list Z) :
  loadEndpoints W c [] = (Done l, t) ->
  loadSplunkSettings W c t = (Done s, t1) ->
  mapM (fun e => ParseDuration W (Duration (Query e))) l = Some ds ->
  exists after,
    snd (main W c [])
      = t1 ++ match cli.quiet c with
              | None => [EvProgress (progressSeconds ds)]
              | Some _ => []
              end
           ++ map (attackEvent W) l ++ after
    /\ Forall (fun ev => is_open ev = true) t1
    /\ Forall (fun ev => match ev with
                         | EvOpen _ | EvProgress _ | EvAttack _ _ _ => False
                         | _ => True
                         end) after
    /\ (Forall (fun d => 0 <= d /\ d mod Second = 0) ds ->
        wholeSeconds ds < 2 ^ 53 ->
        progressSeconds ds = wholeSeconds ds).
Proof.
  intros Hload Hsplunk Hds.
  rewrite (main_run W c l t s t1 ds Hload Hsplunk Hds).
  destruct (emitReports_reports W c (attachMetrics W (t1 ++ progressEvents c ds) l) s
              ((t1 ++ progressEvents c ds) ++ map (attackEvent W) l))
    as (after & -> & Hafter).
  exists after. split; [|split; [|split]].
  - unfold progressEvents. rewrite <- !app_assoc. by destruct (cli.quiet c).
  - assert (Forall (fun ev => is_open ev = true) t) as Ht.
    { destruct (loadEndpoints_opens W c []) as [H|(f & _ & H)];
        rewrite Hload in H; simpl in H; subst t; by repeat constructor. }
    destruct (loadSplunkSettings_opens W c t) as [H|(f & _ & H)];
      rewrite Hsplunk in H; simpl in H; subst t1; [done|].
    apply Forall_app. split; [done|]. by repeat constructor.
  - eapply Forall_impl; [exact Hafter|]. intros ev. apply reports_on_after_runs.
  - intros Hwhole Hlt. unfold progressSeconds.
    change 0%Q with (inject_Z 0). rewrite sumSeconds_whole by (try done; lia).
    pose proof (wholeSeconds_nonneg ds Hwhole) as Hpos.
    unfold int_of_float64, truncate, inject_Z. cbn [Qnum Qden].
    rewrite Z.quot_1_r, Z.add_0_l.
    unfold int_min, int_max.
    destruct (Z.leb_spec (- 2 ^ 63) (wholeSeconds ds)); [|lia].
    destruct (Z.leb_spec (wholeSeconds ds) (2 ^ 63 - 1)); [done|lia].
Qed.

(** Instances: without [--quiet] the bar of one endpoint of three
    seconds is started for 3; [--quiet=false] suppresses it. *)
Lemma progress_bar_with_quiet_false :
  (exists after,
     snd (main demoWorld (printFile "endpoints.json") [])
       = [EvOpen "endpoints.json"]
         ++ match cli.quiet (printFile "endpoints.json") with
            | None => [EvProgress (progressSeconds [3000000000])]
            | Some _ => []
            end
         ++ map (attackEvent demoWorld) [zeroRateSpec] ++ after
     /\ Forall (fun ev => is_open ev = true) [EvOpen "endpoints.json"]
     /\ Forall (fun ev => match ev with
                          | EvOpen _ | EvProgress _ | EvAttack _ _ _ => False
                          | _ => True
                          end) after
     /\ (Forall (fun d => 0 <= d /\ d mod Second = 0) [3000000000] ->
         wholeSeconds [3000000000] < 2 ^ 53 ->
         progressSeconds [3000000000] = wholeSeconds [3000000000]))
  /\ progressSeconds [3000000000] = 3
  /\ exists after,
       snd (main demoWorld jsonSetToFalse [])
         = [EvOpen "endpoints.json"]
           ++ match cli.quiet jsonSetToFalse with
              | None => [EvProgress (progressSeconds [3000000000])]
              | Some _ => []
              end
           ++ map (attackEvent demoWorld) [zeroRateSpec] ++ after
       /\ Forall (fun ev => is_open ev = true) [EvOpen "endpoints.json"]
       /\ Forall (fun ev => match ev with
                            | EvOpen _ | EvProgress _ | EvAttack _ _ _ => False
                            | _ => True
                            end) after
       /\ (Forall (fun d => 0 <= d /\ d mod Second = 0) [3000000000] ->
           wholeSeconds [3000000000] < 2 ^ 53 ->
           progressSeconds [3000000000] = wholeSeconds [3000000000]).
Proof.
  split; [|split; [reflexivity|]].
  - apply (progress_bar_before_first_run demoWorld (printFile "endpoints.json")
             [zeroRateSpec] [EvOpen "endpoints.json"] zeroSettings
             [EvOpen "endpoints.json"] [3000000000]); reflexivity.
  - apply (progress_bar_before_first_run demoWorld jsonSetToFalse [zeroRateSpec]
             [EvOpen "endpoints.json"] zeroSettings [EvOpen "endpoints.json"]
             [3000000000]); reflexivity.
Defined.

(** X10.  The JSON report follows the presence of [--json], not its
    value: when the flag is given, be it as [--json=false], and no PDF
    is requested, a run that gets as far as the reports prints the
    JSON report of the enriched list. *)
Theorem json_report_follows_presence (W : World) (c : cli.Context)
    (l : list endpointDetails) (t : list event) (s : splunkSettings) (t1 : list event)
    (ds : list Z) (b : bool) :
  loadEndpoints W c [] = (Done l, t) ->
  loadSplunkSettings W c t = (Done s, t1) ->
  mapM (fun e => ParseDuration W (Duration (Query e))) l = Some ds ->
  cli.json c = Some b -> cli.output c = None ->
  In (EvJSON (attachMetrics W (t1 ++ progressEvents c ds) l)) (snd (main W c [])).
Proof.
  intros Hload Hsplunk Hds Hj Ho.
  rewrite (main_run W c l t s t1 ds Hload Hsplunk Hds), emitReports_run.
  rewrite Hj, Ho. simpl.
  set (enriched := attachMetrics W (t1 ++ progressEvents c ds) l).
  set (T := (t1 ++ progressEvents c ds) ++ map (attackEvent W) l).
  destruct (cli.IsSet (cli.splunk c)).
  - destruct (sendJsonToSplunk_trace W s enriched
                (T ++ (if cli.Bool (cli.print c) then [EvText enriched] else [])
                   ++ [EvJSON enriched])) as (fwd & -> & _).
    rewrite !in_app_iff. simpl. tauto.
  - simpl. rewrite !in_app_iff. simpl. tauto.
Qed.

(** An instance: [--print --json=false]. *)
Lemma json_report_with_json_false :
  In (EvJSON (attachMetrics demoWorld
                ([EvOpen "endpoints.json"] ++ progressEvents jsonSetToFalse [3000000000])
                [zeroRateSpec]))
     (snd (main demoWorld jsonSetToFalse [])).
Proof.
  apply (json_report_follows_presence demoWorld jsonSetToFalse [zeroRateSpec]
           [EvOpen "endpoints.json"] zeroSettings [EvOpen "endpoints.json"]
           [3000000000] false); reflexivity.
Defined.

(** ** More on the resolver *)

Lemma store_members_known_only {T F} (D : Decoder) (fields : list F) (tag : F -> string)
    (F_eqb : F -> F -> bool) (put : F -> node -> T -> option T) ms : forall acc,
  store_members D fields tag F_eqb put (known_only D fields tag ms) acc
  = store_members D fields tag F_eqb put ms acc.
Proof.
  induction ms as [|kv ms IH]; intros acc; [done|].
  unfold known_only in *. cbn [List.filter store_members].
  destruct (field_of_key D fields tag (fst kv)) as [f|] eqn:Hk.
  - cbn [store_members]. destruct (store_member D fields tag F_eqb put acc kv); [|done].
    simpl. apply IH.
  - unfold store_member. rewrite Hk. simpl. apply IH.
Qed.

Lemma existsb_known_only {F} (D : Decoder) (fields : list F) (tag : F -> string)
    (k : string) (ms : list (string * node)) :
  existsb (fun kv' => String.eqb k (fst kv')) ms = false ->
  existsb (fun kv' => String.eqb k (fst kv')) (known_only D fields tag ms) = false.
Proof.
  unfold known_only. induction ms as [|kv ms IH]; [done|]. cbn [existsb List.filter].
  intros [Hk Hms]%orb_false_elim. destruct (field_of_key D fields tag (fst kv)); [|auto].
  cbn [existsb]. by rewrite Hk, IH.
Qed.

Lemma repeated_key_known_only {F} (D : Decoder) (fields : list F) (tag : F -> string)
    (ms : list (string * node)) :
  repeated_key ms = false -> repeated_key (known_only D fields tag ms) = false.
Proof.
  induction ms as [|kv ms IH]; [done|]. cbn [repeated_key].
  intros [Hk Hms]%orb_false_elim.
  change (known_only D fields tag (kv :: ms))
    with (if match field_of_key D fields tag (fst kv) with Some _ => true | None => false end
          then kv :: known_only D fields tag ms else known_only D fields tag ms).
  destruct (field_of_key D fields tag (fst kv)); [|auto].
  cbn [repeated_key]. by rewrite existsb_known_only, IH.
Qed.

Lemma keys_accepted_known_only {F} (D : Decoder) (fields : list F) (tag : F -> string)
    (ms : list (string * node)) :
  keys_accepted D ms = true -> keys_accepted D (known_only D fields tag ms) = true.
Proof.
  unfold keys_accepted. destruct (unique_keys D); [|done]. simpl.
  intros H%negb_true_iff. by rewrite repeated_key_known_only.
Qed.

Lemma store_struct_known_only {T F} (D : Decoder) (fields : list F) (tag : F -> string)
    (F_eqb : F -> F -> bool) (put : F -> node -> T -> option T) ms s :
  keys_accepted D ms = true ->
  store_struct D fields tag F_eqb put (Map (known_only D fields tag ms)) s
  = store_struct D fields tag F_eqb put (Map ms) s.
Proof.
  intros H. pose proof (keys_accepted_known_only D fields tag ms H) as H'.
  unfold keys_accepted in *. apply negb_true_iff in H, H'.
  unfold store_struct. by rewrite H, H', store_members_known_only.
Qed.

Lemma store_struct_repeated {T F} (D : Decoder) (fields : list F) (tag : F -> string)
    (F_eqb : F -> F -> bool) (put : F -> node -> T -> option T) ms s :
  keys_accepted D ms = false ->
  store_struct D fields tag F_eqb put (Map ms) s = None.
Proof.
  unfold keys_accepted, store_struct. intros H%negb_false_iff. by rewrite H.
Qed.

(** X11.  A key that names no field is ignored, not rejected: a record
    whose keys the decoder takes decodes to the same result, or fails
    alike, with such members removed, at every level (the record, its
    target, its query parameters) and for the sink settings too.  JSON
    takes any keys; YAML takes a mapping only when no key occurs twice
    in it, whether the key names a field or not, and fails otherwise. *)
Theorem unknown_keys_are_ignored (enc : encoding)
    (metrics : node -> vegeta.Metrics -> option vegeta.Metrics) :
  (forall rec,
     keys_accepted (decoder enc metrics) rec = true ->
     Unmarshal enc metrics (Map (known_only (decoder enc metrics) detailsFields detailsTag rec))
     = Unmarshal enc metrics (Map rec))
  /\ (forall ms q,
        keys_accepted (decoder enc metrics) ms = true ->
        storeQuery (decoder enc metrics)
          (Map (known_only (decoder enc metrics) queryFields queryTag ms)) q
        = storeQuery (decoder enc metrics) (Map ms) q)
  /\ (forall ms tg,
        keys_accepted (decoder enc metrics) ms = true ->
        storeTarget (decoder enc metrics)
          (Map (known_only (decoder enc metrics) targetFields targetTag ms)) tg
        = storeTarget (decoder enc metrics) (Map ms) tg)
  /\ (forall ms st,
        keys_accepted (decoder enc metrics) ms = true ->
        storeSettings (decoder enc metrics)
          (Map (known_only (decoder enc metrics) settingsFields settingsTag ms)) st
        = storeSettings (decoder enc metrics) (Map ms) st)
  /\ (forall ms,
        keys_accepted (decoder enc metrics) ms
        = match enc with JSON => true | YAML => negb (repeated_key ms) end)
  /\ (forall ms,
        keys_accepted (decoder enc metrics) ms = false ->
        Unmarshal enc metrics (Map ms) = None
        /\ (forall q, storeQuery (decoder enc metrics) (Map ms) q = None)
        /\ (forall tg, storeTarget (decoder enc metrics) (Map ms) tg = None)
        /\ (forall st, storeSettings (decoder enc metrics) (Map ms) st = None)).
Proof.
  split; [|split; [|split; [|split; [|split]]]].
  - intros rec H. destruct enc;
      cbv beta iota zeta delta [Unmarshal UnmarshalJSON UnmarshalYAML decoder] in *;
      unfold storeDetails; by rewrite store_struct_known_only.
  - intros ms q H. unfold storeQuery. by rewrite store_struct_known_only.
  - intros ms tg H. unfold storeTarget. by rewrite store_struct_known_only.
  - intros ms st H. unfold storeSettings. by rewrite store_struct_known_only.
  - intros ms. by destruct enc.
  - intros ms H. repeat split.
    + destruct enc;
        cbv beta iota zeta delta [Unmarshal UnmarshalJSON UnmarshalYAML decoder] in *;
        unfold storeDetails; by rewrite store_struct_repeated.
    + intros q. unfold storeQuery. by rewrite store_struct_repeated.
    + intros tg. unfold storeTarget. by rewrite store_struct_repeated.
    + intros st. unfold storeSettings. by rewrite store_struct_repeated.
Qed.

(** Instances in YAML: a record with a note beside its query
    parameters decodes as without the note, and a record with two notes
    does not decode. *)
Lemma unknown_keys_of_a_noted_record :
  (Unmarshal YAML noMetrics
     (Map (known_only (decoder YAML noMetrics) detailsFields detailsTag notedRecord))
   = Unmarshal YAML noMetrics (Map notedRecord)
   /\ Unmarshal YAML noMetrics (Map notedRecord) = Some (withThreads 5))
  /\ Unmarshal YAML noMetrics (Map (("note", Str "again") :: notedRecord)) = None.
Proof.
  split; [split; [|reflexivity]|].
  - apply (proj1 (unknown_keys_are_ignored YAML noMetrics) notedRecord). reflexivity.
  - apply (proj2 (proj2 (proj2 (proj2 (proj2 (unknown_keys_are_ignored YAML noMetrics)))))
             (("note", Str "again") :: notedRecord)).
    reflexivity.
Defined.

Lemma store_members_absent {T F A} (D : Decoder) (fields : list F) (tag : F -> string)
    (F_eqb : F -> F -> bool) (put : F -> node -> T -> option T)
    (f : F) (proj : T -> A) :
  (forall f' v s s', f' <> f -> put f' v s = Some s' -> proj s' = proj s) ->
  forall ms acc acc',
    Forall (fun kv => field_of_key D fields tag (fst kv) <> Some f) ms ->
    store_members D fields tag F_eqb put ms acc = Some acc' ->
    proj (fst acc') = proj (fst acc).
Proof.
  intros Hother. induction ms as [|kv ms IH]; intros acc acc' Hms.
  - by intros [= <-].
  - inversion Hms as [|? ? Hkv Hms']; subst. cbn [store_members].
    destruct (store_member D fields tag F_eqb put acc kv) as [acc1|] eqn:H1; [|done].
    simpl. intros H2. rewrite (IH _ _ Hms' H2). clear H2 IH.
    revert H1. unfold store_member.
    destruct (field_of_key D fields tag (fst kv)) as [f'|]; [|by intros [= <-]].
    destruct (unique_keys D && _); [done|].
    destruct (put f' (snd kv) (fst acc)) as [s'|] eqn:Hput; [|done].
    simpl. intros [= <-]. simpl. eapply Hother; [|exact Hput]. congruence.
Qed.

(** X12.  What a record does not mention stays as the resolver set it
    up: without a target member the method, URL, body and header are
    empty; without a [query_parameters] member the query is the five
    defaults; without a metrics member the metrics are zero. *)
Theorem unmentioned_parts_are_empty_or_default (enc : encoding)
    (metrics : node -> vegeta.Metrics -> option vegeta.Metrics)
    (rec : list (string * node)) (e : endpointDetails) :
  Unmarshal enc metrics (Map rec) = Some e ->
  (leaves_out (decoder enc metrics) FTarget rec -> Target e = zeroTarget)
  /\ (leaves_out (decoder enc metrics) FQuery rec ->
      Query e = {| Threads := 2; MaxThreads := 2; Connections := 10;
                   Duration := "10s"; RequestRate := 500 |})
  /\ (leaves_out (decoder enc metrics) FMetrics rec -> Metrics e = vegeta.zero).
Proof.
  intros H.
  assert (exists d, storeDetails (decoder enc metrics) (Map rec) d = Some e
            /\ Target d = zeroTarget
            /\ Query d = {| Threads := 2; MaxThreads := 2; Connections := 10;
                            Duration := "10s"; RequestRate := 500 |}
            /\ Metrics d = vegeta.zero) as (d & Hd & Ht & Hq & Hm).
  { destruct enc;
      cbv beta iota zeta delta [Unmarshal UnmarshalJSON UnmarshalYAML] in H;
      eexists; (split; [exact H|done]). }
  clear H. unfold storeDetails, store_struct, leaves_out in *.
  destruct (unique_keys (decoder enc metrics) && repeated_key rec); [done|].
  destruct (store_members _ _ _ _ _ rec _) as [acc'|] eqn:Hs; [|done].
  simpl in Hd. injection Hd as <-.
  pose proof (fun A f (proj : endpointDetails -> A) Ho Hl =>
    store_members_absent (decoder enc metrics) detailsFields detailsTag detailsField_eqb
      (setDetailsField (decoder enc metrics)) f proj Ho rec _ _ Hl Hs) as R.
  simpl in R. repeat split.
  - intros Hl. rewrite <- Ht. apply (R _ FTarget Target); [|done].
    intros [] v s0 s' Hne; [done| |]; unfold setDetailsField; intros ?;
      by simplify_option_eq.
  - intros Hl. rewrite <- Hq. apply (R _ FQuery Query); [|done].
    intros [] v s0 s' Hne; [|done|]; unfold setDetailsField; intros ?;
      by simplify_option_eq.
  - intros Hl. rewrite <- Hm. apply (R _ FMetrics Metrics); [|done].
    intros [] v s0 s' Hne; [| |done]; unfold setDetailsField; intros ?;
      by simplify_option_eq.
Qed.

(** An instance: a record with nothing but five threads. *)
Lemma unmentioned_parts_of_five_threads :
  (leaves_out (decoder JSON noMetrics) FTarget fiveThreadsRecord ->
   Target fiveThreadsSpec = zeroTarget)
  /\ (leaves_out (decoder JSON noMetrics) FQuery fiveThreadsRecord ->
      Query fiveThreadsSpec = {| Threads := 2; MaxThreads := 2; Connections := 10;
                                 Duration := "10s"; RequestRate := 500 |})
  /\ (leaves_out (decoder JSON noMetrics) FMetrics fiveThreadsRecord ->
      Metrics fiveThreadsSpec = vegeta.zero).
Proof.
  apply (unmentioned_parts_are_empty_or_default JSON noMetrics fiveThreadsRecord
           fiveThreadsSpec).
  reflexivity.
Defined.

(** ** The series of one endpoint *)

(** Past the end of the points only rows without four fields are
    harmless. *)
Lemma plotRows_beyond W rows : forall (j : nat) points points',
  (length points <= j)%nat ->
  plotRows W rows j points = Done points' <->
  points' = points /\ Forall (fun row => length (Fields row) <> 4%nat) rows.
Proof.
  induction rows as [|row rows IH]; intros j points points' Hj.
  - simpl. split; [by intros [= <-]|by intros [-> _]].
  - cbn [plotRows]. destruct (Nat.eqb_spec (length (Fields row)) 4) as [H4|H4].
    + destruct (ParseFloat W (nth 3 _ _));
        [destruct (ParseFloat W (nth 0 _ _));
           [rewrite (lookup_ge_None_2 points j Hj)|]|];
        (split; [done|]); intros [_ Hall]; by inversion Hall.
    + rewrite IH by lia. split.
      * intros [-> Hall]. split; [done|]. by constructor.
      * intros [-> Hall]. split; [done|]. by inversion Hall.
Qed.

Lemma row_fails_other W row : length (Fields row) <> 4%nat -> row_fails W row = false.
Proof. intros H. unfold row_fails. by apply Nat.eqb_neq in H as ->. Qed.

Lemma rowPoint_other W row : length (Fields row) <> 4%nat -> rowPoint W row = zeroXY.
Proof. intros H. unfold rowPoint. by apply Nat.eqb_neq in H as ->. Qed.

(** The loop on points of which the first [length pre] are settled and
    [n] are still zero. *)
Lemma plotRows_Done W rows : forall pre (n : nat) points',
  plotRows W rows (length pre) (pre ++ replicate n zeroXY) = Done points' <->
  Forall (fun row => row_fails W row = false) rows
  /\ Forall (fun row => length (Fields row) <> 4%nat) (drop n rows)
  /\ points' = pre ++ map (rowPoint W) (take n rows)
                    ++ replicate (n - length rows) zeroXY.
Proof.
  induction rows as [|row rows IH]; intros pre n points'.
  - rewrite drop_nil, take_nil. simpl. rewrite Nat.sub_0_r. split.
    + intros [= <-]. by repeat split.
    + by intros (_ & _ & ->).
  - cbn [plotRows]. destruct (Nat.eqb_spec (length (Fields row)) 4) as [H4|H4].
    + assert (row_fails W row
              = negb (parses W (nth 3 (Fields row) ""))
                || negb (parses W (nth 0 (Fields row) ""))) as Hfails.
      { unfold row_fails. by rewrite H4. }
      assert (rowPoint W row
              = {| X := default 0%Q (ParseFloat W (nth 3 (Fields row) ""));
                   Y := default 0%Q (ParseFloat W (nth 0 (Fields row) "")) |}) as Hpoint.
      { unfold rowPoint. by rewrite H4. }
      unfold parses in Hfails.
      destruct (ParseFloat W (nth 3 (Fields row) "")) as [x|].
      2: { split; [done|]. intros (Hall & _). inversion Hall; subst.
           simpl in Hfails. congruence. }
      destruct (ParseFloat W (nth 0 (Fields row) "")) as [y|].
      2: { split; [done|]. intros (Hall & _). inversion Hall; subst.
           simpl in Hfails. congruence. }
      destruct n as [|n].
      * rewrite lookup_ge_None_2 by (rewrite length_app; simpl; lia).
        split; [done|]. intros (_ & Hall & _). rewrite drop_0 in Hall.
        by inversion Hall.
      * cbn [replicate]. rewrite list_lookup_middle by done.
        rewrite insert_app_r_alt by done. rewrite Nat.sub_diag. cbn [insert list_insert].
        rewrite (cons_middle _ pre), app_assoc.
        replace (S (length pre)) with (length (pre ++ [setY y (setX x zeroXY)]))
          by (rewrite length_app; simpl; lia).
        rewrite IH. cbn [drop take map length Nat.sub]. rewrite Hpoint.
        rewrite <- app_assoc. simpl.
        split; intros (Hall & Hdrop & ->); (split; [|done]).
        -- by constructor.
        -- by inversion Hall.
    + pose proof (row_fails_other W row H4) as Hf.
      pose proof (rowPoint_other W row H4) as Hp.
      destruct n as [|n].
      * rewrite plotRows_beyond by (rewrite length_app; simpl; lia).
        rewrite !drop_0. simpl. rewrite app_nil_r. split.
        -- intros [-> Hall]. split; [|split; [by constructor|done]].
           constructor; [done|]. eapply Forall_impl; [exact Hall|].
           intros r. apply row_fails_other.
        -- intros (_ & Hall & ->). split; [done|]. by inversion Hall.
      * cbn [replicate]. rewrite (cons_middle _ pre), app_assoc.
        replace (S (length pre)) with (length (pre ++ [zeroXY]))
          by (rewrite length_app; simpl; lia).
        rewrite IH. cbn [drop take map length Nat.sub]. rewrite Hp.
        rewrite <- app_assoc. simpl.
        split; intros (Hall & Hdrop & ->); (split; [|done]).
        -- by constructor.
        -- by inversion Hall.
Qed.

Lemma plotPoints_Done W s points :
  plotPoints W s = Done points <->
  exists init final,
    tail (Split s "010") = init ++ [final]
    /\ Forall (fun row => row_fails W row = false) init
    /\ length (Fields final) <> 4%nat
    /\ points = map (rowPoint W) init.
Proof.
  unfold plotPoints. destruct (tail (Split s "010")) as [|r rs] eqn:Hrows.
  - split; [done|]. intros (init & final & H & _). by destruct init.
  - destruct (exists_last (l:=r :: rs) ltac:(done)) as (init & final & Heq).
    rewrite Heq. clear Hrows Heq r rs.
    replace (length (init ++ [final]) - 1)%nat with (length init)
      by (rewrite length_app; simpl; lia).
    change (plotRows W (init ++ [final]) 0 (replicate (length init) zeroXY))
      with (plotRows W (init ++ [final]) (length (@nil XY))
              ([] ++ replicate (length init) zeroXY)).
    rewrite plotRows_Done.
    rewrite drop_app_length, take_app_length, length_app.
    replace (length init - (length init + length [final]))%nat with 0%nat by lia.
    simpl. rewrite app_nil_r. split.
    + intros (Hall & Hlast & ->). exists init, final.
      apply Forall_app in Hall as [Hall _]. by inversion Hlast.
    + intros (init' & final' & Heq & Hall & Hlast & ->).
      apply app_inj_tail in Heq as [-> ->]. repeat split; [|by constructor].
      apply Forall_app. split; [done|]. constructor; [|done].
      by apply row_fails_other.
Qed.

(** ** Rows without four fields *)







(** X13.  The series of an endpoint is built exactly when the text has
    a newline, every four-field row before the last piece of the text
    has numbers in its fourth and first fields, and the last piece is
    not a four-field row; it then has one point for every row but the
    last piece: the fourth field as X and the first as Y, and the zero
    point for a row without four fields. *)
Theorem series_built_exactly_when (W : World) (bufferString : string) (points : list XY) :
  plotPoints W bufferString = Done points <->
  exists init final,
    tail (Split bufferString "010") = init ++ [final]
    /\ Forall (fun row => row_fails W row = false) init
    /\ length (Fields final) <> 4%nat
    /\ points = map (rowPoint W) init.
Proof. apply plotPoints_Done. Qed.

Lemma Split_one_line s : one_line s = true -> Split s "010" = [s].
Proof.
  induction s as [|c s IH]; [done|]. simpl.
  destruct (Ascii.eqb c "010"); [done|]. simpl. intros H. by rewrite IH.
Qed.

Lemma Split_line_exact l r :
  one_line l = true -> Split (l +:+ String "010" r) "010" = l :: Split r "010".
Proof.
  induction l as [|c l IH]; [done|]. simpl.
  destruct (Ascii.eqb c "010"); [done|]. simpl. intros H. by rewrite IH.
Qed.

Lemma Split_writeLines_exact lines :
  Forall (fun l => one_line l = true) lines ->
  Split (writeLines lines) "010" = lines ++ [""%string].
Proof.
  induction 1 as [|l lines Hl _ IH]; [done|].
  cbn [writeLines]. by rewrite Split_line_exact, IH.
Qed.

Lemma plotPoints_report W header rows :
  one_line header = true ->
  Forall (fun row => one_line row = true) rows ->
  Forall (fun row => row_fails W row = false) rows ->
  plotPoints W (writeLines (header :: rows)) = Done (map (rowPoint W) rows).
Proof.
  intros Hh Hone Hrows. apply plotPoints_Done. exists rows, ""%string.
  rewrite Split_writeLines_exact by (by constructor). by repeat split.
Qed.

(** X14.  From the text of a reporter whose rows each have numbers in
    their fourth and first fields, the series has one point per row, in
    row order: the row's fourth field, 1/(1-percentile), as X and its
    first field, the latency in milliseconds, as Y. *)
Theorem series_of_a_report (W : World) (header : string) (rows : list string) :
  one_line header = true ->
  Forall (fun row => one_line row = true) rows ->
  Forall (fun row => row_fails W row = false) rows ->
  plotPoints W (writeLines (header :: rows)) = Done (map (rowPoint W) rows).
Proof. apply plotPoints_report. Qed.

(** An instance: the sample world's histogram. *)
Lemma series_of_the_demo_report :
  plotPoints demoWorld (writeLines (HDRHeader demoWorld vegeta.zero
                                      :: HDRRows demoWorld vegeta.zero))
  = Done (map (rowPoint demoWorld) (HDRRows demoWorld vegeta.zero)).
Proof.
  apply (series_of_a_report demoWorld (HDRHeader demoWorld vegeta.zero)
           (HDRRows demoWorld vegeta.zero)).
  - reflexivity.
  - repeat constructor.
  - repeat constructor.
Defined.

(** X15.  A text without any newline leaves no rows after the header
    is cut off, the length to allocate is negative, and the program
    panics. *)
Theorem text_without_newline_panics (W : World) (bufferString : string) :
  one_line bufferString = true -> plotPoints W bufferString = Panic.
Proof. intros H. unfold plotPoints. by rewrite Split_one_line. Qed.

(** An instance: the empty text. *)
Lemma empty_text_panics : plotPoints demoWorld "" = Panic.
Proof. apply (text_without_newline_panics demoWorld ""). reflexivity. Defined.

Lemma plotPoints_lines_no_panic W header lines :
  plotPoints W (writeLines (header :: lines)) <> Panic.
Proof.
  unfold plotPoints. cbn [writeLines].
  destruct (Split_line header (writeLines lines)) as (h0 & t & -> & Hne & Hl).
  rewrite Split_writeLines in Hl. simpl.
  destruct t as [|r rs] eqn:Ht; [done|]. rewrite <- Ht in *. clear Ht r rs.
  apply plotRows_in_bounds. intros k row Hk H4. rewrite length_replicate. simpl.
  rewrite last_lookup in Hl. pose proof (lookup_lt_Some _ _ _ Hk) as Hlt.
  destruct (decide (k = pred (length t))) as [->|]; [|lia].
  rewrite Hl in Hk. by injection Hk as <-.
Qed.

Lemma fails_somewhere (p : string -> bool) (l : list string) :
  Forall (fun x => p x = false) l \/ Exists (fun x => p x = true) l.
Proof.
  induction l as [|x l [IH|IH]]; [by left| |right; by constructor].
  destruct (p x) eqn:Hx; [right; by constructor|left; by constructor].
Qed.

(** X16.  On a reporter's text the row loop never panics, and it ends
    in [log.Fatal] exactly when some row has four fields of which the
    fourth or the first is not a number. *)
Theorem report_fatal_exactly_when (W : World) (header : string) (rows : list string) :
  one_line header = true ->
  Forall (fun row => one_line row = true) rows ->
  (plotPoints W (writeLines (header :: rows)) = Fatal <->
   Exists (fun row => row_fails W row = true) rows).
Proof.
  intros Hh Hone. split.
  - intros Hfatal. destruct (fails_somewhere (row_fails W) rows) as [Hall|]; [|done].
    rewrite (plotPoints_report W header rows Hh Hone Hall) in Hfatal. done.
  - intros Hex.
    destruct (plotPoints W (writeLines (header :: rows))) as [points| |] eqn:Hrun;
      [|done|by apply plotPoints_lines_no_panic in Hrun].
    apply plotPoints_Done in Hrun as (init & final & Heq & Hall & _).
    rewrite Split_writeLines_exact in Heq by (by constructor). simpl in Heq.
    apply app_inj_tail in Heq as [-> _].
    apply Exists_exists in Hex as (row & Hin & Hrow).
    rewrite Forall_forall in Hall. by rewrite (Hall row Hin) in Hrow.
Qed.

(** An instance: a row whose latency is not a number. *)
Lemma report_fatal_on_a_bad_row :
  plotPoints demoWorld (writeLines ["header"; "x  0.000000  0  1.000000"]) = Fatal <->
  Exists (fun row => row_fails demoWorld row = true) ["x  0.000000  0  1.000000"].
Proof.
  apply (report_fatal_exactly_when demoWorld "header" ["x  0.000000  0  1.000000"]).
  - reflexivity.
  - repeat constructor.
Defined.

(** ** The series of all endpoints *)

Lemma createGraphPoints_cons W e l :
  createGraphPoints W (e :: l) =
  match plotPoints W (Report W (Metrics e)) with
  | Done ps =>
      match createGraphPoints W l with
      | Done pss => Done (ps :: pss)
      | Fatal => Fatal
      | Panic => Panic
      end
  | Fatal => Fatal
  | Panic => Panic
  end.
Proof. reflexivity. Qed.

(** X17.  The graph gets one series per endpoint, in input order, each
    from that endpoint's own histogram text; the rows are never indexed
    out of range, whatever the metrics; and the program ends in
    [log.Fatal] exactly when the text of some endpoint does. *)
Theorem one_series_per_endpoint (W : World) (l : list endpointDetails) :
  createGraphPoints W l <> Panic
  /\ (forall pss,
        createGraphPoints W l = Done pss <->
        Forall2 (fun e ps => plotPoints W (Report W (Metrics e)) = Done ps) l pss)
  /\ (createGraphPoints W l = Fatal <->
      Exists (fun e => plotPoints W (Report W (Metrics e)) = Fatal) l).
Proof.
  induction l as [|e l (IHp & IHd & IHf)].
  - repeat split; try done.
    + intros [= <-]. constructor.
    + by inversion 1.
    + by inversion 1.
  - rewrite createGraphPoints_cons.
    pose proof (plotPoints_lines_no_panic W (HDRHeader W (Metrics e)) (HDRRows W (Metrics e)))
      as Hnp. fold (Report W (Metrics e)) in Hnp.
    destruct (plotPoints W (Report W (Metrics e))) as [ps| |] eqn:He; [| |done].
    + destruct (createGraphPoints W l) as [pss0| |] eqn:Hl; [| |done].
      * repeat split; try done.
        -- intros [= <-]. constructor; [done|]. by apply IHd.
        -- inversion 1 as [|? ps' ? pss' Hps Hrest]; subst.
           apply IHd in Hrest. congruence.
        -- inversion 1 as [? ? Hf|? ? Hf]; subst; [congruence|].
           by apply IHf in Hf.
      * repeat split; try done.
        -- inversion 1 as [|? ps' ? pss' Hps Hrest]; subst. by apply IHd in Hrest.
        -- intros _. apply Exists_cons_tl. by apply IHf.
    + repeat split; try done.
      * inversion 1; subst. congruence.
      * intros _. by apply Exists_cons_hd.
Qed.

(** ** The axes *)

(** X18.  Below zero the loop of the Y axis does not run at all: the
    only tick is the one at 30 for the real-time threshold. *)
Theorem only_the_threshold_below_zero (fuel : nat) (min max : Q) :
  (max < 0)%Q ->
  Ticks (S fuel) min max = Some [{| Value := inject_Z 30; Label := "Real-Time -- 30ms" |}].
Proof.
  intros Hneg. unfold Ticks. cbn [ticksLoop].
  assert (Qle_bool (inject_Z (float64_of_int 0)) max = false) as ->; [|done].
  apply not_true_is_false. rewrite Qle_bool_iff. intros Hle.
  by apply (Qlt_not_le _ _ Hneg).
Qed.

(** An instance: a maximum of -1/2. *)
Lemma only_the_threshold_at_minus_half :
  Ticks 1 0 (-1 # 2)
  = Some [{| Value := inject_Z 30; Label := "Real-Time -- 30ms" |}].
Proof. apply (only_the_threshold_below_zero 0 0 (-1 # 2)). reflexivity. Defined.

(** X19.  The X axis has the same eight ticks whatever the range, at
    1, 10, ..., 10^7, and the label of the tick at x names the
    percentile p with x = 100 / (100 - p), which is where a row of that
    percentile is plotted. *)
Theorem x_ticks_name_their_percentile (min max : Q) :
  map Value (customXTicks.Ticks min max)
    = map (fun k : nat => inject_Z (10 ^ Z.of_nat k)) (seq 0 8)
  /\ Forall (fun tk => exists p, percentile (Label tk) = Some p
                                 /\ (Value tk * (100 - p) == 100)%Q)
       (customXTicks.Ticks min max).
Proof.
  split; [reflexivity|].
  repeat (constructor; [eexists; split; [reflexivity|reflexivity]|]).
  constructor.
Qed.

(** ** Sink settings of another kind *)

Lemma emitReports_posts W c l s : extends (posts_with W s) (emitReports W c l s).
Proof.
  intros t. rewrite emitReports_run.
  assert (Forall (posts_with W s) (if cli.Bool (cli.print c) then [EvText l] else []))
    as Htext by (destruct (cli.Bool (cli.print c)); by repeat constructor).
  assert (Forall (posts_with W s)
            (if cli.IsSet (cli.output c) then [EvPDF l (cli.String (cli.output c))] else []))
    as Hpdf by (destruct (cli.IsSet (cli.output c)); by repeat constructor).
  assert (Forall (posts_with W s) (if cli.IsSet (cli.json c) then [EvJSON l] else []))
    as Hjs by (destruct (cli.IsSet (cli.json c)); by repeat constructor).
  destruct (cli.IsSet (cli.output c) && _); [by eexists|].
  destruct (cli.IsSet (cli.splunk c)) eqn:Hs.
  - destruct (sendJsonToSplunk_trace W s l
                (t ++ (if cli.Bool (cli.print c) then [EvText l] else [])
                   ++ (if cli.IsSet (cli.output c)
                       then [EvPDF l (cli.String (cli.output c))] else [])
                   ++ (if cli.IsSet (cli.json c) then [EvJSON l] else [])))
      as (fwd & -> & _ & Hfwd).
    eexists. rewrite <- !app_assoc. split; [done|].
    repeat (apply Forall_app; split; [done|]).
    eapply Forall_impl; [exact Hfwd|]. by intros [].
  - eexists. split; [done|]. by repeat (apply Forall_app; split; [done|]).
Qed.

Lemma runAndReport_posts W c l s : extends (posts_with W s) (runAndReport W c l s).
Proof.
  unfold runAndReport.
  apply extends_bind; [apply parseDurations_extends|]. intros ds.
  apply extends_bind; [apply extends_if; [by apply extends_emit|apply extends_ret]|].
  intros _. apply extends_bind; [by apply queryFrom_extends|]. intros l'.
  apply emitReports_posts.
Qed.

(** X20.  A [--splunk] file whose extension is none of [.json], [.yml]
    and [.yaml] is not read and raises no error: the settings stay
    empty, and every event the command then forwards goes to the empty
    URL with an empty authorization key and source. *)
Theorem unknown_settings_extension_sends_to_nowhere (W : World) (c : cli.Context)
    (file : string) :
  cli.splunk c = Some file ->
  Ext file <> ".json"%string -> Ext file <> ".yml"%string -> Ext file <> ".yaml"%string ->
  (forall t, loadSplunkSettings W c t = (Done zeroSettings, t))
  /\ Forall (fun ev => match ev with
                        | EvPost req =>
                            RequestURL req = ""%string /\ Authorization req = ""%string
                            /\ EventSource (Payload req) = ""%string
                        | _ => True
                        end) (snd (main W c [])).
Proof.
  intros Hs Hj Hy1 Hy2.
  assert (forall t, loadSplunkSettings W c t = (Done zeroSettings, t)) as Hload.
  { intros t. unfold loadSplunkSettings. rewrite Hs. simpl.
    apply String.eqb_neq in Hj, Hy1, Hy2. by rewrite Hj, Hy1, Hy2. }
  split; [exact Hload|].
  rewrite main_unfold, bind_run.
  assert (Forall (fun ev => is_open ev = true) (snd (loadEndpoints W c []))) as Hopens.
  { destruct (loadEndpoints_opens W c []) as [->|(f & _ & ->)]; by repeat constructor. }
  assert (forall t, Forall (fun ev => is_open ev = true) t ->
            Forall (fun ev => match ev with
                              | EvPost req =>
                                  RequestURL req = ""%string /\ Authorization req = ""%string
                                  /\ EventSource (Payload req) = ""%string
                              | _ => True
                              end) t) as Himpl.
  { intros t Ht. eapply Forall_impl; [exact Ht|]. by intros []. }
  destruct (loadEndpoints W c []) as [[l| |] t0]; simpl in Hopens; [|by apply Himpl..].
  rewrite bind_run, Hload.
  destruct (runAndReport_posts W c l zeroSettings t0) as (tl & -> & Htl).
  apply Forall_app. split; [by apply Himpl|].
  eapply Forall_impl; [exact Htl|]. intros [] Hev; try done.
  simpl in Hev. by destruct Hev as (-> & -> & _ & -> & _).
Qed.

(** An instance: [--splunk settings.txt]. *)
Lemma settings_txt_sends_to_nowhere :
  (forall t, loadSplunkSettings demoWorld splunkTxt t = (Done zeroSettings, t))
  /\ Forall (fun ev => match ev with
                        | EvPost req =>
                            RequestURL req = ""%string /\ Authorization req = ""%string
                            /\ EventSource (Payload req) = ""%string
                        | _ => True
                        end) (snd (main demoWorld splunkTxt [])).
Proof.
  apply (unknown_settings_extension_sends_to_nowhere demoWorld splunkTxt "settings.txt");
    [reflexivity|discriminate..].
Defined.
